(** * DiffViewer: the diff-to-rows transformation of the comparison view

    Shallow embedding of [client/src/components/DiffViewer.jsx]:
    [normalizeText], the line arrays [oldLines]/[newLines] and the row
    builder [getDiffRows], together with a model of the line-diff primitive
    [diffLines] of the npm package [diff], which the component imports;
    then its renderer [renderDiffRows] and the gutter widths, the request
    handler of [ControlPanel] that feeds the diff tab of [OutputPanel], the
    theme hook [useTheme] with the menu of [ColorSchemes], the buttons of
    [UserPanel] and the error handlers of [UserAuth].

    Conventions.
    - A JavaScript string is a [string]; its characters stand for code units
      below 256.  Line feed is [LF] (code 10), carriage return [CR] (13).
    - A JavaScript array is a [list]; [push] appends at the end, [pop] removes
      the last element.
    - The counters [oldIdx]/[newIdx] are natural numbers (they start at 1 and
      are only incremented); [null] is [None]. *)

From Stdlib Require Import String Ascii List Arith Bool Lia Sorted.
From Stdlib Require DecimalString DecimalNat DecimalFacts.
Import ListNotations.

Local Open Scope string_scope.
Local Open Scope list_scope.

(** ** Characters and string primitives *)

Definition LF : ascii := "010"%char.
Definition CR : ascii := "013"%char.

(** A one-character string and the two line terminators as strings. *)
Definition str1 (c : ascii) : string := String c EmptyString.
Definition nl : string := str1 LF.
Definition crlf : string := String CR nl.

(** [s.split(sep)] for a one-character separator: the pieces between the
    occurrences of [sep]; never the empty array ([''.split(sep)] is ['']). *)
Fixpoint split (sep : ascii) (s : string) : list string :=
  match s with
  | EmptyString => [EmptyString]
  | String c s' =>
      if Ascii.eqb c sep then EmptyString :: split sep s'
      else match split sep s' with
           | piece :: pieces => String c piece :: pieces
           | [] => [str1 c]
           end
  end.

(** [text.replace(/\r\n/g, '\n')]. *)
Fixpoint replaceCRLF (s : string) : string :=
  match s with
  | EmptyString => EmptyString
  | String c s' =>
      match s' with
      | String d s'' =>
          if Ascii.eqb c CR && Ascii.eqb d LF
          then String LF (replaceCRLF s'')
          else String c (replaceCRLF s')
      | EmptyString => str1 c
      end
  end.

(** [text.replace(/\r/g, '\n')]. *)
Fixpoint replaceCR (s : string) : string :=
  match s with
  | EmptyString => EmptyString
  | String c s' => String (if Ascii.eqb c CR then LF else c) (replaceCR s')
  end.

(** [lines.at(-1)]: the last element, [undefined] ([None]) on the empty array. *)
Fixpoint at_last (lines : list string) : option string :=
  match lines with
  | [] => None
  | [l] => Some l
  | _ :: rest => at_last rest
  end.

(** [if (lines.at(-1) === '') lines.pop();] *)
Definition popIfLastEmpty (lines : list string) : list string :=
  match at_last lines with
  | Some EmptyString => removelast lines
  | _ => lines
  end.

(** ** Data model *)

(** One element of the array returned by [diffLines]: the text of a run of
    lines and its two flags. *)
Record DiffPart : Type := mkPart {
  value : string;
  added : bool;
  removed : bool
}.

(** The [kind] field of a row: ['add'], ['del'] or ['equal']. *)
Inductive Kind : Type := add | del | equal.

Record DiffRow : Type := mkRow {
  oldIdx : option nat;
  newIdx : option nat;
  kind : Kind;
  text : string
}.

(** ** DiffViewer.jsx, lines 20-22: line arrays of the two props *)

Definition normalizeText (text : string) : string :=
  replaceCR (replaceCRLF text).

Definition textLines (content : string) : list string :=
  split LF (normalizeText content).

(** ** DiffViewer.jsx, line 17: the external line-diff primitive

    [diffLines] belongs to the npm package [diff]; the repository has no
    source for it.  Its model below follows what the repository relies on. *)

(** Modelled from the spec: the line tokens of the external diff primitive
    ("each carrying a text blob whose lines are delimited by \n").  A token
    is a line together with its terminating line feed (a carriage return
    before it stays in the token); the text after the last line feed is a
    token of its own unless it is empty. *)
Fixpoint tokenize (s : string) : list string :=
  match s with
  | EmptyString => []
  | String c s' =>
      if Ascii.eqb c LF then nl :: tokenize s'
      else match tokenize s' with
           | tok :: toks => String c tok :: toks
           | [] => [str1 c]
           end
  end.

(** White space and line terminators below code 256, as [String.prototype.trim]
    removes them: TAB, LF, VT, FF, CR, SPACE and NBSP. *)
Definition isSpace (c : ascii) : bool :=
  let n := nat_of_ascii c in
  ((9 <=? n)%nat && (n <=? 13)%nat) || (n =? 32)%nat || (n =? 160)%nat.

Fixpoint trimStart (s : string) : string :=
  match s with
  | EmptyString => EmptyString
  | String c s' => if isSpace c then trimStart s' else s
  end.

Fixpoint trimEnd (s : string) : string :=
  match s with
  | EmptyString => EmptyString
  | String c s' =>
      match trimEnd s' with
      | EmptyString => if isSpace c then EmptyString else str1 c
      | t => String c t
      end
  end.

Definition trim (s : string) : string := trimStart (trimEnd s).

(** Modelled from the spec: the option [{ ignoreWhitespace: true }] passed at
    line 17 ("its own internal whitespace handling applies"): two line tokens
    count as the same line when they agree after trimming. *)
Definition sameLine (a b : string) : bool := String.eqb (trim a) (trim b).

(** One step of a line edit script; an unchanged step carries the token of
    the new text. *)
Inductive Edit : Type :=
  | Keep (tok : string)
  | Insert (tok : string)
  | Delete (tok : string).

Definition tokenOf (e : Edit) : string :=
  match e with Keep t | Insert t | Delete t => t end.

Definition isChange (e : Edit) : bool :=
  match e with Keep _ => false | _ => true end.

(** The number of inserted and deleted lines of a script. *)
Definition cost (script : list Edit) : nat :=
  List.length (filter isChange script).

(** Modelled from the spec: the edit script of the external diff primitive
    ("an ordered list of tagged text runs representing a minimal line-based
    edit script").  Equal leading lines are kept; otherwise the cheaper of
    deleting the old line and inserting the new one is taken, the deletion
    on a tie, so that removed lines come before the added lines that replace
    them (as the test 'diff lines are indexed correctly' expects). *)
Fixpoint editScript (olds : list string) : list string -> list Edit :=
  fix inner (news : list string) : list Edit :=
    match olds, news with
    | [], _ => map Insert news
    | _, [] => map Delete olds
    | o :: olds', n :: news' =>
        if sameLine o n then Keep n :: editScript olds' news'
        else
          let viaDelete := Delete o :: editScript olds' news in
          let viaInsert := Insert n :: inner news' in
          if (cost viaDelete <=? cost viaInsert)%nat then viaDelete else viaInsert
    end.

Definition partOf (e : Edit) : DiffPart :=
  match e with
  | Keep t => mkPart t false false
  | Insert t => mkPart t true false
  | Delete t => mkPart t false true
  end.

Definition sameTag (e : Edit) (p : DiffPart) : bool :=
  Bool.eqb (added (partOf e)) (added p) && Bool.eqb (removed (partOf e)) (removed p).

(** Modelled from the spec: the parts of the external diff primitive
    ("one contiguous run of lines classified as added, removed, or unchanged
    ...; carries the literal concatenated text of that run"): maximal runs of
    steps with the same tag, each with the concatenation of its tokens. *)
Fixpoint buildValues (script : list Edit) : list DiffPart :=
  match script with
  | [] => []
  | e :: rest =>
      match buildValues rest with
      | p :: parts =>
          if sameTag e p
          then mkPart (tokenOf e ++ value p) (added p) (removed p) :: parts
          else partOf e :: p :: parts
      | [] => [partOf e]
      end
  end.

(** Modelled from the spec: [diffLines(oldStr, newStr, { ignoreWhitespace:
    true })] of the npm package [diff], which is not part of the repository:
    "given two texts, produce a sequence of added/removed/equal line groups". *)
Definition diffLines (oldStr newStr : string) : list DiffPart :=
  buildValues (editScript (tokenize oldStr) (tokenize newStr)).

(** ** DiffViewer.jsx, lines 34-57: getDiffRows *)

(** The variables the two loops update: the array [rows] and the counters. *)
Record Locals : Type := mkLocals {
  l_rows : list DiffRow;
  l_oldIdx : nat;
  l_newIdx : nat
}.

(** Lines 40-42: the lines of one part. *)
Definition partLines (part : DiffPart) : list string :=
  popIfLastEmpty (split LF (value part)).

(** Lines 45-53: the body of the inner loop. *)
Definition pushRow (part : DiffPart) (st : Locals) (line : string) : Locals :=
  if added part then
    mkLocals (l_rows st ++ [mkRow None (Some (l_newIdx st)) add line])
             (l_oldIdx st) (S (l_newIdx st))
  else if removed part then
    mkLocals (l_rows st ++ [mkRow (Some (l_oldIdx st)) None del line])
             (S (l_oldIdx st)) (l_newIdx st)
  else
    mkLocals (l_rows st ++ [mkRow (Some (l_oldIdx st)) (Some (l_newIdx st)) equal line])
             (S (l_oldIdx st)) (S (l_newIdx st)).

(** Lines 39-55: one iteration of the outer loop, then the whole loop. *)
Definition forPart (st : Locals) (part : DiffPart) : Locals :=
  fold_left (pushRow part) (partLines part) st.

Definition forParts (lineDiff : list DiffPart) (st : Locals) : Locals :=
  fold_left forPart lineDiff st.

(** Lines 35-37: the locals start afresh at every call. *)
Definition initLocals : Locals := mkLocals [] 1 1.

Definition getDiffRows (lineDiff : list DiffPart) : list DiffRow :=
  l_rows (forParts lineDiff initLocals).

(** ** DiffViewer.jsx, lines 16-17 and 126: the rows the component renders *)

Definition DiffViewer_rows (oldContent newContent : string) : list DiffRow :=
  getDiffRows (diffLines oldContent newContent).

(** ** Observations on a row sequence *)

(** The [oldIdx] values of the rows that have one, in sequence order; the
    same for [newIdx]. *)
Definition oldIdxs (rows : list DiffRow) : list nat :=
  flat_map (fun r => match oldIdx r with Some i => [i] | None => [] end) rows.

Definition newIdxs (rows : list DiffRow) : list nat :=
  flat_map (fun r => match newIdx r with Some i => [i] | None => [] end) rows.

Definition present {A : Type} (o : option A) : bool :=
  match o with Some _ => true | None => false end.

(** The number of rows whose [oldIdx] (resp. [newIdx]) is not [null]. *)
Definition countOld (rows : list DiffRow) : nat :=
  List.length (filter (fun r => present (oldIdx r)) rows).

Definition countNew (rows : list DiffRow) : nat :=
  List.length (filter (fun r => present (newIdx r)) rows).

(** The relation between the kind of a row and its two indices. *)
Definition rowShape (r : DiffRow) : Prop :=
  match kind r with
  | add => oldIdx r = None /\ newIdx r <> None
  | del => newIdx r = None /\ oldIdx r <> None
  | equal => oldIdx r <> None /\ newIdx r <> None
  end.

(** The lines a diff result holds for the old text (the parts not marked
    added) and for the new text (the parts marked added, or marked neither). *)
Definition oldLineCount (lineDiff : list DiffPart) : nat :=
  list_sum (map (fun p => if added p then 0 else List.length (partLines p)) lineDiff).

Definition newLineCount (lineDiff : list DiffPart) : nat :=
  list_sum (map (fun p => if added p then List.length (partLines p)
                          else if removed p then 0
                          else List.length (partLines p)) lineDiff).

(** What holds of the locals of [getDiffRows] before and after every
    iteration of its loops: the indices handed out so far are 1, 2, ... up
    to the counters, and every row has the shape of its kind. *)
Record Inv (st : Locals) : Prop := mkInv {
  inv_old : oldIdxs (l_rows st) = seq 1 (l_oldIdx st - 1);
  inv_new : newIdxs (l_rows st) = seq 1 (l_newIdx st - 1);
  inv_old_pos : 1 <= l_oldIdx st;
  inv_new_pos : 1 <= l_newIdx st;
  inv_shape : Forall rowShape (l_rows st)
}.

(** ** Line tokens *)

Fixpoint noLF (s : string) : bool :=
  match s with
  | EmptyString => true
  | String c s' => negb (Ascii.eqb c LF) && noLF s'
  end.

(** A line with its line feed. *)
Definition terminated (t : string) : Prop :=
  exists body, noLF body = true /\ t = (body ++ nl)%string.

(** A line with its line feed, or a last line without one. *)
Definition lineTok (t : string) : Prop :=
  terminated t \/ (t <> EmptyString /\ noLF t = true).

(** The tokens of a text: only the last one may lack its line feed. *)
Fixpoint wfTokens (toks : list string) : Prop :=
  match toks with
  | [] => True
  | t :: rest => lineTok t /\ (rest <> [] -> terminated t) /\ wfTokens rest
  end.

(** The tokens a script takes from the new text, and those it deletes from
    the old text. *)
Definition news (script : list Edit) : list string :=
  flat_map (fun e => match e with Delete _ => [] | Keep t | Insert t => [t] end) script.

Definition dels (script : list Edit) : list string :=
  flat_map (fun e => match e with Delete t => [t] | _ => [] end) script.

Definition isInsert (e : Edit) : bool :=
  match e with Insert _ => true | _ => false end.

(** The steps of a script that consume a line of the old text. *)
Definition oldSteps (script : list Edit) : nat :=
  List.length (filter (fun e => negb (isInsert e)) script).

(** Every carriage return of the text is followed by a line feed. *)
Fixpoint noBareCR (s : string) : bool :=
  match s with
  | EmptyString => true
  | String c s' =>
      (if Ascii.eqb c CR
       then match s' with String d _ => Ascii.eqb d LF | EmptyString => false end
       else true) && noBareCR s'
  end.

Fixpoint noCR (s : string) : bool :=
  match s with
  | EmptyString => true
  | String c s' => negb (Ascii.eqb c CR) && noCR s'
  end.

(** ** Unchanged parts and rows *)

Definition unchanged (p : DiffPart) : Prop := added p = false /\ removed p = false.

(** A row of kind ['equal'] whose two indices agree. *)
Definition rowSame (r : DiffRow) : Prop := kind r = equal /\ oldIdx r = newIdx r.

(** The invariant of the loops while only unchanged parts are met. *)
Definition InvSame (st : Locals) : Prop :=
  l_oldIdx st = l_newIdx st /\ Forall rowSame (l_rows st).

(** ** The component as a transformer of the state it can reach

    What one call of [DiffViewer] reads and writes: the two props, the array
    bound to [lineDiff] at line 17, the array [lines] of the part at hand
    (lines 40-42) and the locals of [getDiffRows].  A store may hold what an
    earlier call left behind. *)
Record Store : Type := mkStore {
  s_oldContent : string;
  s_newContent : string;
  s_lineDiff : list DiffPart;
  s_lines : list string;
  s_locals : Locals
}.

Definition setLineDiff (v : list DiffPart) (s : Store) : Store :=
  mkStore (s_oldContent s) (s_newContent s) v (s_lines s) (s_locals s).

Definition setLines (v : list string) (s : Store) : Store :=
  mkStore (s_oldContent s) (s_newContent s) (s_lineDiff s) v (s_locals s).

Definition setLocals (v : Locals) (s : Store) : Store :=
  mkStore (s_oldContent s) (s_newContent s) (s_lineDiff s) (s_lines s) v.

(** Lines 40 and 42: [let lines = part.value.split('\n')], then the [pop],
    which changes the array [lines] and nothing else. *)
Definition execSplit (part : DiffPart) (s : Store) : Store :=
  let s1 := setLines (split LF (value part)) s in
  match at_last (s_lines s1) with
  | Some EmptyString => setLines (removelast (s_lines s1)) s1
  | _ => s1
  end.

(** Lines 44-54: the inner loop over the array [lines]. *)
Definition execLines (part : DiffPart) (s : Store) : Store :=
  fold_left (fun s' line => setLocals (pushRow part (s_locals s') line) s')
            (s_lines s) s.

(** Lines 35-56: [getDiffRows] on the store; [returned] is its result. *)
Definition execGetDiffRows (s : Store) : Store :=
  fold_left (fun s' part => execLines part (execSplit part s'))
            (s_lineDiff s) (setLocals initLocals s).

Definition returned (s : Store) : list DiffRow := l_rows (s_locals s).

(** Lines 17 and 126: one call of the component, for a given line-diff
    primitive. *)
Definition execDiffViewer (primitive : string -> string -> list DiffPart)
    (s : Store) : Store :=
  execGetDiffRows (setLineDiff (primitive (s_oldContent s) (s_newContent s)) s).

(** Two stores with the same props: one as a first call finds it, one as a
    call finds it after other rows were built. *)
Definition freshStore : Store :=
  mkStore ("Old" ++ nl ++ "Content") ("New" ++ nl ++ "Content") [] [] initLocals.

Definition usedStore : Store :=
  mkStore ("Old" ++ nl ++ "Content") ("New" ++ nl ++ "Content")
          [mkPart "stale" true false] ["stale"]
          (mkLocals [mkRow (Some 7) None del "stale"] 8 3).

(** ** Further observations on the rows *)

(** The kind of the rows of a part: line 46 tests [part.added] first. *)
Definition partKind (p : DiffPart) : Kind :=
  if added p then add else if removed p then del else equal.

(** The kind and the text of a row. *)
Definition kindText (r : DiffRow) : Kind * string := (kind r, text r).

(** The texts on the new side (the rows with a new index) and on the old
    side (the rows with an old index), in the order of the rows. *)
Definition newSide (rows : list DiffRow) : list string :=
  map text (filter (fun r => present (newIdx r)) rows).

Definition oldSide (rows : list DiffRow) : list string :=
  map text (filter (fun r => present (oldIdx r)) rows).

(** The lines a diff result holds for the new side and for the old side. *)
Definition newLinesOf (lineDiff : list DiffPart) : list string :=
  flat_map (fun p => if added p then partLines p
                     else if removed p then [] else partLines p) lineDiff.

Definition oldLinesOf (lineDiff : list DiffPart) : list string :=
  flat_map (fun p => if added p then [] else partLines p) lineDiff.

(** The line of a token: the token without its line feed. *)
Definition lineOf (tok : string) : string := hd EmptyString (split LF tok).

(** The tokens a script shows on the old side: the deleted tokens of the old
    text and, for the kept lines, the tokens of the new text. *)
Definition oldToks (script : list Edit) : list string :=
  flat_map (fun e => match e with Insert _ => [] | Keep t | Delete t => [t] end) script.

(** Two texts agree line by line up to white space around each line. *)
Definition sameLines (a b : string) : Prop :=
  Forall2 (fun l m => trim l = trim m)
          (popIfLastEmpty (split LF a)) (popIfLastEmpty (split LF b)).

(** ** DiffViewer.jsx, lines 24-26: the widths of the two gutters *)

(** [String(n)] for a non-negative integer: its decimal digits. *)
Definition numberToString (n : nat) : string :=
  DecimalString.NilEmpty.string_of_uint (Nat.to_uint n).

(** The number in front of [ch] at line 24: the digits of the number of
    lines, plus two. *)
Definition idxWidthCh (lines : list string) : nat :=
  String.length (numberToString (List.length lines)) + 2.

Definition getIdxWidth (lines : list string) : string :=
  (numberToString (idxWidthCh lines) ++ "ch")%string.

Fixpoint countLF (s : string) : nat :=
  match s with
  | EmptyString => 0
  | String c s' => (if Ascii.eqb c LF then 1 else 0) + countLF s'
  end.

(** ** DiffViewer.jsx, lines 65-125: renderDiffRows *)

(** An element of the grid: the attributes the component sets and the text
    it holds. *)
Record Element : Type := mkElement {
  e_id : option string;
  e_className : string;
  e_width : option string;
  e_role : option string;
  e_ariaLabel : option string;
  e_text : string
}.

(** The truth value of an index in a condition: [null] and [0] are false. *)
Definition idxTruthy (idx : option nat) : bool :=
  match idx with
  | Some (S _) => true
  | _ => false
  end.

Definition idxString (idx : option nat) : string :=
  match idx with
  | Some i => numberToString i
  | None => "null"
  end.

(** Lines 96 and 105: [{oldIdx || ''}]. *)
Definition gutterText (idx : option nat) : string :=
  if idxTruthy idx then idxString idx else EmptyString.

(** Lines 94 and 103: the labels of the two gutter cells. *)
Definition oldGutterLabel (idx : option nat) : string :=
  if idxTruthy idx then ("Original line " ++ idxString idx)%string
  else "No original line".

Definition newGutterLabel (idx : option nat) : string :=
  if idxTruthy idx then ("New line " ++ idxString idx)%string
  else "No new line".

Definition gutterCls : string := "bg-primary px-2 text-right text-gray-500".

(** Lines 80-85. *)
Definition textCls (k : Kind) : string :=
  match k with
  | add => "border-l-4 border-green-500 bg-green-900/80 text-green-200 whitespace-pre-wrap"
  | del => "border-l-4 border-red-500 bg-red-900/80 text-red-200 whitespace-pre-wrap"
  | equal => "text-gray-300 pl-2 whitespace-pre-wrap"
  end.

(** Lines 111-117. *)
Definition textLabel (k : Kind) (line : string) : string :=
  match k with
  | add => ("Added: " ++ line)%string
  | del => ("Deleted: " ++ line)%string
  | equal => ("Unchanged: " ++ line)%string
  end.

(** Line 119: the marker, a space and the line. *)
Definition textContent (k : Kind) (line : string) : string :=
  ((match k with add => " +" | del => " -" | equal => EmptyString end)
   ++ " " ++ line)%string.

(** Lines 87-122: the three cells of a row. *)
Definition renderRow (oldIdxWidth newIdxWidth : string) (row : DiffRow) : list Element :=
  [mkElement None gutterCls (Some oldIdxWidth) (Some "cell")
             (Some (oldGutterLabel (oldIdx row))) (gutterText (oldIdx row));
   mkElement None gutterCls (Some newIdxWidth) (Some "cell")
             (Some (newGutterLabel (newIdx row))) (gutterText (newIdx row));
   mkElement None (textCls (kind row)) None (Some "cell")
             (Some (textLabel (kind row) (text row)))
             (textContent (kind row) (text row))].

(** Lines 72-75. *)
Definition diffDescription : Element :=
  mkElement (Some "diff-description") "sr-only" None None None
    "Side-by-side comparison showing additions in green, deletions in red, and unchanged lines in gray".

(** Lines 66-124: the children of the grid. *)
Definition renderDiffRows (oldIdxWidth newIdxWidth : string) (rows : list DiffRow)
    : list Element :=
  diffDescription :: flat_map (renderRow oldIdxWidth newIdxWidth) rows.

(** Lines 16-26 and 126: the children of the grid the component returns. *)
Definition DiffViewer (oldContent newContent : string) : list Element :=
  renderDiffRows (getIdxWidth (textLines oldContent))
                 (getIdxWidth (textLines newContent))
                 (DiffViewer_rows oldContent newContent).

(** ** OutputPanel.jsx, line 52, and ControlPanel, lines 307-330 of the
    source file that also holds UserPanel *)

(** [value || ''] for a string, [null] or [undefined]. *)
Definition orEmpty (v : option string) : string :=
  match v with
  | Some s => s
  | None => EmptyString
  end.

(** [value ?? fallback] for a string, [null] or [undefined]. *)
Definition nullish (v : option string) (fallback : string) : string :=
  match v with
  | Some s => s
  | None => fallback
  end.

(** The rows of the diff tab for the two props of the output panel. *)
Definition OutputPanel_rows (markdown markdownInput : option string) : list DiffRow :=
  DiffViewer_rows (orEmpty markdownInput) (orEmpty markdown).

(** The state of [App] (lines 27-29 of App.jsx) and of [ControlPanel], and
    the toasts shown so far. *)
Inductive Toast : Type :=
  | toastSuccess (msg : string)
  | toastError (msg : string).

Record Ui : Type := mkUi {
  u_markdownInput : string;
  u_markdown : string;
  u_summary : string;
  u_instructions : string;
  u_isProcessing : bool;
  u_toasts : list Toast
}.

(** The reply of the analysis service, as far as the handler reads it. *)
Record LLMResult : Type := mkLLMResult {
  res_markdown : option string;
  res_summary : option string
}.

(** How the two awaited calls of [onSendToLLM] end. *)
Inductive Settled : Type :=
  | fulfilled (result : LLMResult)
  | rejected.

(** The calls a handler makes on the setters and on [toast]. *)
Inductive Call : Type :=
  | setIsProcessing (b : bool)
  | setMarkdownInput (s : string)
  | setMarkdown (s : string)
  | setSummary (s : string)
  | setInstructions (s : string)
  | showToast (t : Toast).

(** ControlPanel, lines 307-330: the calls of [onSendToLLM], in order,
    for the [markdown] and [instructions] of the render that made it. *)
Definition onSendToLLM (markdown instructions : string) (outcome : Settled)
    : list Call :=
  [setIsProcessing true]
  ++ match outcome with
     | fulfilled result =>
         [setMarkdownInput markdown;
          setMarkdown (nullish (res_markdown result) markdown);
          setSummary (nullish (res_summary result) EmptyString);
          setInstructions EmptyString;
          showToast (toastSuccess "LLM request completed.")]
     | rejected =>
         [setMarkdown markdown;
          setInstructions instructions;
          showToast (toastError "LLM request failed. Please try again.")]
     end
  ++ [setIsProcessing false].

Definition applyCall (st : Ui) (c : Call) : Ui :=
  match c with
  | setIsProcessing b =>
      mkUi (u_markdownInput st) (u_markdown st) (u_summary st) (u_instructions st)
           b (u_toasts st)
  | setMarkdownInput s =>
      mkUi s (u_markdown st) (u_summary st) (u_instructions st)
           (u_isProcessing st) (u_toasts st)
  | setMarkdown s =>
      mkUi (u_markdownInput st) s (u_summary st) (u_instructions st)
           (u_isProcessing st) (u_toasts st)
  | setSummary s =>
      mkUi (u_markdownInput st) (u_markdown st) s (u_instructions st)
           (u_isProcessing st) (u_toasts st)
  | setInstructions s =>
      mkUi (u_markdownInput st) (u_markdown st) (u_summary st) s
           (u_isProcessing st) (u_toasts st)
  | showToast t =>
      mkUi (u_markdownInput st) (u_markdown st) (u_summary st) (u_instructions st)
           (u_isProcessing st) (u_toasts st ++ [t])
  end.

(** One request: started from a render with the given [markdown] and
    [instructions], settled with [outcome] when the state is [current]
    (which may hold what was typed in the meantime). *)
Definition settleRequest (markdown instructions : string) (outcome : Settled)
    (current : Ui) : Ui :=
  fold_left applyCall (onSendToLLM markdown instructions outcome) current.

(** ** useTheme.js and ColorSchemes.jsx *)

(** useTheme.js, lines 32-34. *)
Definition themes : list string :=
  ["light"; "dark"; "midnight"; "glacier"; "sunset"; "forest"].

(** [array.includes(value)] for a string or [null]. *)
Definition includes (l : list string) (v : option string) : bool :=
  match v with
  | Some s => existsb (String.eqb s) l
  | None => false
  end.

(** useTheme.js, lines 23-24. *)
Definition defaultTheme (darkMode : bool) : string :=
  if darkMode then "dark" else "light".

(** useTheme.js, lines 36-40: the theme set by the first effect, from the
    value of [localStorage.getItem('color-theme')]. *)
Definition storedOrDefault (storedTheme : option string) (darkMode : bool) : string :=
  if includes themes storedTheme then orEmpty storedTheme else defaultTheme darkMode.

(** What the second effect reaches: the class list of the body and the
    entry ['color-theme'] of the local storage. *)
Record Page : Type := mkPage {
  classList : list string;
  colorTheme : option string
}.

(** [classList.remove(name)] and [classList.add(name)]. *)
Definition classList_remove (name : string) (classes : list string) : list string :=
  filter (fun c => negb (String.eqb c name)) classes.

Definition classList_add (name : string) (classes : list string) : list string :=
  if existsb (String.eqb name) classes then classes else classes ++ [name].

(** useTheme.js, lines 42-48: the second effect; [null] and [''] are false. *)
Definition applyTheme (theme : option string) (pg : Page) : Page :=
  match theme with
  | None | Some EmptyString => pg
  | Some t =>
      mkPage (classList_add t
                (fold_left (fun classes name => classList_remove name classes)
                           themes (classList pg)))
             (Some t)
  end.

Definition isTheme (c : string) : bool := existsb (String.eqb c) themes.

(** ColorSchemes.jsx, lines 38-45: the options of the theme menu. *)
Record ThemeOption : Type := mkThemeOption {
  opt_id : string;
  opt_name : string;
  opt_description : string
}.

Definition themeOptions : list ThemeOption :=
  [mkThemeOption "light" "Light" "Clean & bright";
   mkThemeOption "dark" "Dark" "Easy on the eyes";
   mkThemeOption "sunset" "Sunset" "Warm & cozy";
   mkThemeOption "midnight" "Midnight" "Deep & focused";
   mkThemeOption "forest" "Forest" "Natural & fresh";
   mkThemeOption "glacier" "Glacier" "Cold & crisp"].

(** A state of the application while a request is under way, the editor
    already holding other text than the request took along. *)
Definition sampleUi : Ui :=
  mkUi "# Old" "typed while waiting" "summary" "typed too" true [].

(** That state once the request, started with the text "# Title", is
    answered without markdown. *)
Definition settledUi : Ui :=
  settleRequest "# Title" "shorten"
                (fulfilled (mkLLMResult None (Some "Nothing to change"))) sampleUi.

(** ** UserPanel, lines 166-207, and AuthProvider.jsx, lines 74-76 *)

(** AuthProvider.jsx, line 75: the value the last effect sets. *)
Definition portalAccessOf (paymentEnabled subscribed : bool) : bool :=
  paymentEnabled || subscribed.

(** The upgrade button: its [disabled] attribute and its text. *)
Definition upgradeDisabled (paymentEnabled subscribed isCheckoutBusy : bool) : bool :=
  negb paymentEnabled || subscribed || isCheckoutBusy.

Definition upgradeText (paymentEnabled subscribed isCheckoutBusy : bool) : string :=
  if negb paymentEnabled then "Payments disabled"
  else if subscribed then "Subscription active"
  else if isCheckoutBusy then "Preparing checkout..."
  else "Upgrade to Pro".

(** The billing portal button: its [disabled] attribute and its text. *)
Definition portalDisabled (portalAccess isPortalBusy : bool) : bool :=
  negb portalAccess || isPortalBusy.

Definition portalText (portalAccess isPortalBusy : bool) : string :=
  if negb portalAccess then "Billing portal disabled"
  else if isPortalBusy then "Opening portal..."
  else "Manage billing".

(** ** UserAuth, lines 48-82: the errors of a sign-in *)

(** constants.js: the codes of [AUTH_ERRORS]. *)
Definition EXISTING_ACCOUNT : string := "auth/account-exists-with-different-credential".
Definition EMAIL_IN_USE : string := "auth/email-already-in-use".
Definition POPUP_CLOSED : string := "auth/popup-closed-by-user".
Definition POPUP_BLOCKED : string := "auth/popup-blocked".

(** What the handlers read of an error: [err.code], [err?.customData?.email]
    and the provider id of [GithubAuthProvider.credentialFromError(err)];
    each may be missing. *)
Record AuthError : Type := mkAuthError {
  err_code : option string;
  err_email : option string;
  err_pendingProvider : option string
}.

(** What the handlers do: keep the pending credential (which opens the
    linking dialog) or show an error toast. *)
Inductive AuthAction : Type :=
  | keepCredential
  | errorToast (msg : string).

(** The truth value of a string, [null] or [undefined] in a condition. *)
Definition truthy (v : option string) : bool :=
  match v with
  | Some (String _ _) => true
  | _ => false
  end.

Definition optionIs (v : option string) (s : string) : bool :=
  match v with
  | Some x => String.eqb x s
  | None => false
  end.

(** UserAuth, lines 48-55. *)
Definition handleExistingAccountError (err : AuthError) : list AuthAction :=
  if truthy (err_email err) && optionIs (err_pendingProvider err) "github.com"
  then [keepCredential] else [].

(** UserAuth, lines 65-82; a missing code reads ["undefined"] in the
    text of the last toast. *)
Definition handleSignInError (err : AuthError) : list AuthAction :=
  if optionIs (err_code err) EXISTING_ACCOUNT then handleExistingAccountError err
  else if optionIs (err_code err) EMAIL_IN_USE
       then [errorToast "Account linking failed due to an email mismatch"]
  else if optionIs (err_code err) POPUP_CLOSED
       then [errorToast "Popup was closed by the user"]
  else if optionIs (err_code err) POPUP_BLOCKED
       then [errorToast "Popup was blocked by the browser"]
  else [errorToast ("Error signing in: "
                    ++ match err_code err with Some c => c | None => "undefined" end)].

Definition isNil {A : Type} (l : list A) : bool :=
  match l with
  | [] => true
  | _ => false
  end.

(** The numbered lines of the two sides: for the rows with a new index (an
    old index), the index and the text. *)
Definition newNumbered (rows : list DiffRow) : list (nat * string) :=
  flat_map (fun r => match newIdx r with Some i => [(i, text r)] | None => [] end) rows.

Definition oldNumbered (rows : list DiffRow) : list (nat * string) :=
  flat_map (fun r => match oldIdx r with Some i => [(i, text r)] | None => [] end) rows.

(** * Properties *)

(** ** Sample runs *)

Example getDiffRows_sample :
  getDiffRows [mkPart ("Old" ++ nl) false true; mkPart ("New" ++ nl) true false;
               mkPart "Content" false false]
  = [mkRow (Some 1) None del "Old"; mkRow None (Some 1) add "New";
     mkRow (Some 2) (Some 2) equal "Content"].
Proof. reflexivity. Qed.

(** The pure removal of the specification: "A\nB" against "". *)
Example DiffViewer_rows_pure_removal :
  DiffViewer_rows ("A" ++ nl ++ "B") EmptyString
  = [mkRow (Some 1) None del "A"; mkRow (Some 2) None del "B"].
Proof. reflexivity. Qed.

(** Lines that differ in surrounding white space only count as unchanged and
    show the text of the new side; a final line feed adds no row. *)
Example DiffViewer_rows_whitespace :
  DiffViewer_rows ("A" ++ nl ++ " B " ++ nl) ("A" ++ nl ++ "B" ++ nl ++ "C" ++ nl)
  = [mkRow (Some 1) (Some 1) equal "A"; mkRow (Some 2) (Some 2) equal "B";
     mkRow None (Some 3) add "C"].
Proof. reflexivity. Qed.

Example textLines_sample :
  textLines ("A" ++ crlf ++ str1 CR ++ "B") = ["A"; EmptyString; "B"].
Proof. reflexivity. Qed.

(** ** The loop invariant of getDiffRows *)

Lemma oldIdxs_app (a b : list DiffRow) : oldIdxs (a ++ b) = oldIdxs a ++ oldIdxs b.
Proof. unfold oldIdxs. apply flat_map_app. Qed.

Lemma newIdxs_app (a b : list DiffRow) : newIdxs (a ++ b) = newIdxs a ++ newIdxs b.
Proof. unfold newIdxs. apply flat_map_app. Qed.

Lemma seq_snoc (i : nat) : 1 <= i -> seq 1 (i - 1) ++ [i] = seq 1 i.
Proof.
  intros Hi. replace i with (S (i - 1)) at 3 by lia.
  rewrite seq_S. do 2 f_equal. lia.
Qed.

Lemma fold_left_preserves {A B : Type} (P : A -> Prop) (f : A -> B -> A) :
  (forall a b, P a -> P (f a b)) ->
  forall (l : list B) (a : A), P a -> P (fold_left f l a).
Proof.
  intros Hstep l. induction l as [|b l IH]; intros a Ha; simpl.
  - exact Ha.
  - apply IH, Hstep, Ha.
Qed.

Lemma Inv_init : Inv initLocals.
Proof. constructor; simpl; auto. Qed.

Lemma Inv_pushRow (part : DiffPart) (st : Locals) (line : string) :
  Inv st -> Inv (pushRow part st line).
Proof.
  intros [Ho Hn Hop Hnp Hs]. unfold pushRow.
  destruct (added part); [|destruct (removed part)]; constructor; simpl;
    rewrite ?oldIdxs_app, ?newIdxs_app, ?Ho, ?Hn; simpl;
    rewrite ?app_nil_r, ?Nat.sub_0_r.
  all: try lia.
  all: try (apply seq_snoc; assumption).
  all: try (rewrite Nat.sub_0_r in *; assumption).
  all: try reflexivity.
  all: apply Forall_app; split; [assumption|];
    constructor; [|constructor]; unfold rowShape; simpl; split; congruence.
Qed.

Lemma Inv_forPart (st : Locals) (part : DiffPart) : Inv st -> Inv (forPart st part).
Proof. apply fold_left_preserves. intros a b. apply Inv_pushRow. Qed.

Lemma Inv_forParts (lineDiff : list DiffPart) (st : Locals) :
  Inv st -> Inv (forParts lineDiff st).
Proof. apply fold_left_preserves. intros a b. apply Inv_forPart. Qed.

Lemma getDiffRows_Inv (lineDiff : list DiffPart) : Inv (forParts lineDiff initLocals).
Proof. apply Inv_forParts, Inv_init. Qed.

Lemma countOld_oldIdxs (rows : list DiffRow) : countOld rows = List.length (oldIdxs rows).
Proof.
  unfold countOld, oldIdxs. induction rows as [|r rows IH]; simpl; [reflexivity|].
  rewrite length_app, <- IH. destruct (oldIdx r); reflexivity.
Qed.

Lemma countNew_newIdxs (rows : list DiffRow) : countNew rows = List.length (newIdxs rows).
Proof.
  unfold countNew, newIdxs. induction rows as [|r rows IH]; simpl; [reflexivity|].
  rewrite length_app, <- IH. destruct (newIdx r); reflexivity.
Qed.

Lemma seq_StronglySorted (len start : nat) : StronglySorted lt (seq start len).
Proof.
  revert start. induction len as [|len IH]; intros start; simpl; constructor.
  - apply IH.
  - apply Forall_forall. intros x Hx. apply in_seq in Hx. lia.
Qed.

(** The indices handed out by [getDiffRows] are 1, 2, ... without a gap. *)
Lemma getDiffRows_oldIdxs (lineDiff : list DiffPart) :
  oldIdxs (getDiffRows lineDiff) = seq 1 (countOld (getDiffRows lineDiff)).
Proof.
  rewrite countOld_oldIdxs. unfold getDiffRows.
  destruct (getDiffRows_Inv lineDiff) as [Ho _ _ _ _].
  rewrite Ho at 2. rewrite length_seq. exact Ho.
Qed.

Lemma getDiffRows_newIdxs (lineDiff : list DiffPart) :
  newIdxs (getDiffRows lineDiff) = seq 1 (countNew (getDiffRows lineDiff)).
Proof.
  rewrite countNew_newIdxs. unfold getDiffRows.
  destruct (getDiffRows_Inv lineDiff) as [_ Hn _ _ _].
  rewrite Hn at 2. rewrite length_seq. exact Hn.
Qed.

(** ** The counters of getDiffRows *)

Lemma pushRows_oldIdx (part : DiffPart) (lines : list string) (st : Locals) :
  l_oldIdx (fold_left (pushRow part) lines st)
  = l_oldIdx st + (if added part then 0 else List.length lines).
Proof.
  revert st. induction lines as [|l lines IH]; intros st; simpl.
  - destruct (added part); lia.
  - rewrite IH. unfold pushRow.
    destruct (added part); [|destruct (removed part)]; simpl; lia.
Qed.

Lemma pushRows_newIdx (part : DiffPart) (lines : list string) (st : Locals) :
  l_newIdx (fold_left (pushRow part) lines st)
  = l_newIdx st + (if added part then List.length lines
                   else if removed part then 0 else List.length lines).
Proof.
  revert st. induction lines as [|l lines IH]; intros st; simpl.
  - destruct (added part); [|destruct (removed part)]; lia.
  - rewrite IH. unfold pushRow.
    destruct (added part); [|destruct (removed part)]; simpl; lia.
Qed.

Lemma forParts_oldIdx (lineDiff : list DiffPart) (st : Locals) :
  l_oldIdx (forParts lineDiff st) = l_oldIdx st + oldLineCount lineDiff.
Proof.
  unfold forParts, oldLineCount. revert st.
  induction lineDiff as [|p ps IH]; intros st; simpl; [lia|].
  rewrite IH. unfold forPart. rewrite pushRows_oldIdx. lia.
Qed.

Lemma forParts_newIdx (lineDiff : list DiffPart) (st : Locals) :
  l_newIdx (forParts lineDiff st) = l_newIdx st + newLineCount lineDiff.
Proof.
  unfold forParts, newLineCount. revert st.
  induction lineDiff as [|p ps IH]; intros st; simpl; [lia|].
  rewrite IH. unfold forPart. rewrite pushRows_newIdx. lia.
Qed.

(** The rows with an old index are as many as the lines of the parts that
    are not added; the rows with a new index as many as the lines of the
    parts that are not removed (an added part counts even if also marked
    removed, as line 46 tests [part.added] first). *)
Lemma getDiffRows_countOld (lineDiff : list DiffPart) :
  countOld (getDiffRows lineDiff) = oldLineCount lineDiff.
Proof.
  rewrite countOld_oldIdxs. unfold getDiffRows.
  destruct (getDiffRows_Inv lineDiff) as [Ho _ _ _ _].
  rewrite Ho, length_seq, forParts_oldIdx. simpl. lia.
Qed.

Lemma getDiffRows_countNew (lineDiff : list DiffPart) :
  countNew (getDiffRows lineDiff) = newLineCount lineDiff.
Proof.
  rewrite countNew_newIdxs. unfold getDiffRows.
  destruct (getDiffRows_Inv lineDiff) as [_ Hn _ _ _].
  rewrite Hn, length_seq, forParts_newIdx. simpl. lia.
Qed.

(** ** Splitting at line feeds *)

Lemma split_nonempty (sep : ascii) (s : string) : split sep s <> [].
Proof.
  destruct s as [|c s]; simpl; [discriminate|].
  destruct (Ascii.eqb c sep); [discriminate|].
  destruct (split sep s); discriminate.
Qed.

Lemma split_terminated (body v : string) :
  noLF body = true -> split LF ((body ++ nl) ++ v)%string = body :: split LF v.
Proof.
  induction body as [|c body IH]; simpl; intros H; [reflexivity|].
  apply andb_prop in H. destruct H as [Hc Hb].
  apply negb_true_iff in Hc. rewrite Hc, (IH Hb). reflexivity.
Qed.

Lemma split_noLF (t : string) : noLF t = true -> split LF t = [t].
Proof.
  induction t as [|c t IH]; simpl; intros H; [reflexivity|].
  apply andb_prop in H. destruct H as [Hc Hb].
  apply negb_true_iff in Hc. rewrite Hc, (IH Hb). reflexivity.
Qed.

Lemma popIfLastEmpty_cons (l : string) (lines : list string) :
  lines <> [] -> popIfLastEmpty (l :: lines) = l :: popIfLastEmpty lines.
Proof.
  intros H. destruct lines as [|l' lines]; [contradiction|].
  unfold popIfLastEmpty.
  change (at_last (l :: l' :: lines)) with (at_last (l' :: lines)).
  destruct (at_last (l' :: lines)) as [[|c x]|]; reflexivity.
Qed.

Lemma append_nil_r (s : string) : (s ++ EmptyString)%string = s.
Proof. induction s as [|c s IH]; simpl; [reflexivity|]. now rewrite IH. Qed.

(** A terminated token in front of a text adds exactly its line. *)
Lemma lines_terminated_app (t v : string) :
  terminated t ->
  List.length (popIfLastEmpty (split LF (t ++ v)%string))
  = S (List.length (popIfLastEmpty (split LF v))).
Proof.
  intros [body [Hb ->]]. rewrite (split_terminated body v Hb).
  rewrite popIfLastEmpty_cons by apply split_nonempty. reflexivity.
Qed.

(** A line token alone is one line. *)
Lemma lines_lineTok (t : string) :
  lineTok t -> List.length (popIfLastEmpty (split LF t)) = 1.
Proof.
  intros [Ht|[Hne Hn]].
  - rewrite <- (append_nil_r t). rewrite lines_terminated_app by assumption.
    reflexivity.
  - rewrite split_noLF by assumption. destruct t; [contradiction|reflexivity].
Qed.

(** ** The tokens of a text *)

Lemma terminated_lineTok (t : string) : terminated t -> lineTok t.
Proof. intros H. left. exact H. Qed.

Lemma terminated_cons (c : ascii) (t : string) :
  Ascii.eqb c LF = false -> terminated t -> terminated (String c t).
Proof.
  intros Hc [body [Hb ->]]. exists (String c body). simpl.
  rewrite Hc, Hb. split; reflexivity.
Qed.

Lemma lineTok_cons (c : ascii) (t : string) :
  Ascii.eqb c LF = false -> lineTok t -> lineTok (String c t).
Proof.
  intros Hc [Ht|[_ Hn]].
  - left. apply terminated_cons; assumption.
  - right. split; [discriminate|]. simpl. rewrite Hc, Hn. reflexivity.
Qed.

Lemma terminated_nl : terminated nl.
Proof. exists EmptyString. split; reflexivity. Qed.

Lemma tokenize_wf (s : string) : wfTokens (tokenize s).
Proof.
  induction s as [|c s IH]; simpl; [exact I|].
  destruct (Ascii.eqb c LF) eqn:Hc.
  - simpl. repeat split; auto using terminated_nl, terminated_lineTok.
  - destruct (tokenize s) as [|tok toks].
    + simpl. repeat split; try contradiction.
      right. split; [discriminate|]. simpl. rewrite Hc. reflexivity.
    + destruct IH as [Hl [Ht Hw]]. simpl. repeat split.
      * apply lineTok_cons; assumption.
      * intros Hne. apply terminated_cons; auto.
      * exact Hw.
Qed.

(** The tokens of a text are as many as the lines [split] gives once a
    trailing empty line is dropped. *)
Lemma tokenize_length (s : string) :
  List.length (tokenize s) = List.length (popIfLastEmpty (split LF s)).
Proof.
  induction s as [|c s IH]; simpl; [reflexivity|].
  destruct (Ascii.eqb c LF).
  - rewrite popIfLastEmpty_cons by apply split_nonempty. simpl. now rewrite IH.
  - destruct (split LF s) as [|piece [|q qs]] eqn:Hs.
    + exfalso. exact (split_nonempty LF s Hs).
    + destruct piece as [|d piece]; simpl in IH.
      * destruct (tokenize s); [reflexivity|discriminate].
      * destruct (tokenize s) as [|tok [|tok' toks]]; try discriminate. reflexivity.
    + rewrite popIfLastEmpty_cons in IH by discriminate.
      rewrite popIfLastEmpty_cons by discriminate.
      destruct (tokenize s) as [|tok toks]; [discriminate|]. exact IH.
Qed.

(** ** The edit script of the diff model *)

Arguments editScript : simpl never.

(** Case split on the test of the conditional in the goal. *)
Ltac case_if :=
  match goal with |- context [if ?c then _ else _] => destruct c end.

Lemma editScript_nil_l (news0 : list string) : editScript [] news0 = map Insert news0.
Proof. destruct news0; reflexivity. Qed.

Lemma editScript_nil_r (olds : list string) : editScript olds [] = map Delete olds.
Proof. destruct olds; reflexivity. Qed.

Lemma editScript_cons (o n : string) (olds news0 : list string) :
  editScript (o :: olds) (n :: news0)
  = if sameLine o n then Keep n :: editScript olds news0
    else if (cost (Delete o :: editScript olds (n :: news0))
             <=? cost (Insert n :: editScript (o :: olds) news0))%nat
         then Delete o :: editScript olds (n :: news0)
         else Insert n :: editScript (o :: olds) news0.
Proof. reflexivity. Qed.

(** Induction along the two recursions of [editScript]. *)
Lemma editScript_ind (P : list string -> list string -> list Edit -> Prop) :
  (forall news0, P [] news0 (map Insert news0)) ->
  (forall olds, P olds [] (map Delete olds)) ->
  (forall o n olds news0,
      P olds news0 (editScript olds news0) ->
      P olds (n :: news0) (editScript olds (n :: news0)) ->
      P (o :: olds) news0 (editScript (o :: olds) news0) ->
      P (o :: olds) (n :: news0) (editScript (o :: olds) (n :: news0))) ->
  forall olds news0, P olds news0 (editScript olds news0).
Proof.
  intros Hl Hr Hstep olds.
  induction olds as [|o olds IHo]; intros news0.
  - rewrite editScript_nil_l. apply Hl.
  - induction news0 as [|n news0 IHn].
    + rewrite editScript_nil_r. apply Hr.
    + apply Hstep; [apply IHo|apply IHo|exact IHn].
Qed.

Lemma news_map_Insert (toks : list string) : news (map Insert toks) = toks.
Proof. induction toks as [|t toks IH]; simpl; [reflexivity|]. now rewrite IH. Qed.

Lemma news_map_Delete (toks : list string) : news (map Delete toks) = [].
Proof. induction toks as [|t toks IH]; simpl; [reflexivity|]. exact IH. Qed.

Lemma dels_map_Insert (toks : list string) : dels (map Insert toks) = [].
Proof. induction toks as [|t toks IH]; simpl; [reflexivity|]. exact IH. Qed.

Lemma dels_map_Delete (toks : list string) : dels (map Delete toks) = toks.
Proof. induction toks as [|t toks IH]; simpl; [reflexivity|]. now rewrite IH. Qed.

(** The kept and inserted tokens of the script are the tokens of the new
    text, in order. *)
Lemma news_editScript (olds news0 : list string) :
  news (editScript olds news0) = news0.
Proof.
  apply (editScript_ind (fun _ ns script => news script = ns)).
  - apply news_map_Insert.
  - apply news_map_Delete.
  - intros o n os ns IH1 IH2 IH3. rewrite editScript_cons.
    destruct (sameLine o n); [simpl; now rewrite IH1|].
    case_if; simpl.
    + exact IH2.
    + now rewrite IH3.
Qed.

(** Every line of the old text is consumed by exactly one step. *)
Lemma oldSteps_editScript (olds news0 : list string) :
  oldSteps (editScript olds news0) = List.length olds.
Proof.
  apply (editScript_ind (fun os _ script => oldSteps script = List.length os)).
  - intros ns. unfold oldSteps. induction ns; simpl; auto.
  - intros os. unfold oldSteps. induction os; simpl; auto.
  - intros o n os ns IH1 IH2 IH3. rewrite editScript_cons.
    destruct (sameLine o n); [unfold oldSteps in *; simpl; now rewrite IH1|].
    case_if.
    + unfold oldSteps in *; simpl; now rewrite IH2.
    + unfold oldSteps in *; simpl. exact IH3.
Qed.

Lemma wfTokens_tail (t : string) (toks : list string) :
  wfTokens (t :: toks) -> wfTokens toks.
Proof. intros [_ [_ H]]. exact H. Qed.

(** The deleted tokens are tokens of the old text in their order, so only
    the last of them may lack its line feed. *)
Lemma dels_editScript_aux (olds news0 : list string) :
  wfTokens olds ->
  wfTokens (dels (editScript olds news0))
  /\ (olds = [] -> dels (editScript olds news0) = []).
Proof.
  apply (editScript_ind (fun os _ script =>
    wfTokens os -> wfTokens (dels script) /\ (os = [] -> dels script = []))).
  - intros ns _. rewrite dels_map_Insert. split; [exact I|reflexivity].
  - intros os Hw. rewrite dels_map_Delete. split; [exact Hw|]. intros ->. reflexivity.
  - intros o n os ns IH1 IH2 IH3 Hw. split; [|discriminate].
    rewrite editScript_cons.
    destruct (sameLine o n); [simpl; apply IH1; eapply wfTokens_tail; eauto|].
    case_if.
    + destruct Hw as [Hl [Ht Hw]]. destruct (IH2 Hw) as [Hd Hnil].
      cbn [dels flat_map app]. fold (dels (editScript os (n :: ns))).
      split; [exact Hl|]. split; [|exact Hd].
      intros Hne. apply Ht. intros ->. apply Hne, Hnil. reflexivity.
    + simpl. apply IH3. exact Hw.
Qed.

Lemma dels_editScript_wf (olds news0 : list string) :
  wfTokens olds -> wfTokens (dels (editScript olds news0)).
Proof. intros H. apply dels_editScript_aux, H. Qed.

(** ** The parts of the diff model *)

Lemma buildValues_nil (script : list Edit) : buildValues script = [] -> script = [].
Proof.
  destruct script as [|e rest]; [reflexivity|]. simpl.
  destruct (buildValues rest); [discriminate|].
  destruct (sameTag e d); discriminate.
Qed.

Lemma sameTag_flags (e : Edit) (p : DiffPart) :
  sameTag e p = true ->
  added p = added (partOf e) /\ removed p = removed (partOf e).
Proof.
  unfold sameTag. intros H. apply andb_prop in H. destruct H as [Ha Hr].
  apply Bool.eqb_prop in Ha, Hr. split; congruence.
Qed.

(** The first part of a script has the tag of its first step. *)
Lemma buildValues_head (e : Edit) (rest : list Edit) (p : DiffPart) (parts : list DiffPart) :
  buildValues (e :: rest) = p :: parts ->
  added p = added (partOf e) /\ removed p = removed (partOf e).
Proof.
  simpl. destruct (buildValues rest) as [|q qs].
  - intros H. injection H as <- _. split; reflexivity.
  - destruct (sameTag e q) eqn:Ht; intros H; injection H as <- _.
    + simpl. apply sameTag_flags, Ht.
    + split; reflexivity.
Qed.

Lemma oldLineCount_cons (p : DiffPart) (parts : list DiffPart) :
  oldLineCount (p :: parts)
  = (if added p then 0 else List.length (partLines p)) + oldLineCount parts.
Proof. reflexivity. Qed.

Lemma newLineCount_cons (p : DiffPart) (parts : list DiffPart) :
  newLineCount (p :: parts)
  = (if added p then List.length (partLines p)
     else if removed p then 0 else List.length (partLines p)) + newLineCount parts.
Proof. reflexivity. Qed.

Lemma wf_head_lineTok (e : Edit) (rest : list Edit) :
  wfTokens (news (e :: rest)) -> wfTokens (dels (e :: rest)) -> lineTok (tokenOf e).
Proof. destruct e; simpl; intros Hn Hd; [apply Hn|apply Hn|apply Hd]. Qed.

Lemma wf_head_terminated (e e2 : Edit) (rest : list Edit) :
  wfTokens (news (e :: e2 :: rest)) -> wfTokens (dels (e :: e2 :: rest)) ->
  added (partOf e2) = added (partOf e) -> removed (partOf e2) = removed (partOf e) ->
  terminated (tokenOf e).
Proof.
  destruct e, e2; simpl; intros Hn Hd Ha Hr; try discriminate;
    [apply Hn|apply Hn|apply Hd]; discriminate.
Qed.

Lemma wf_rest (e : Edit) (rest : list Edit) :
  wfTokens (news (e :: rest)) -> wfTokens (dels (e :: rest)) ->
  wfTokens (news rest) /\ wfTokens (dels rest).
Proof.
  destruct e; simpl; intros Hn Hd; split;
    try assumption; eapply wfTokens_tail; eassumption.
Qed.

Lemma partLines_partOf (e : Edit) :
  lineTok (tokenOf e) -> List.length (partLines (partOf e)) = 1.
Proof. intros H. destruct e; unfold partLines; simpl; apply lines_lineTok, H. Qed.

Lemma news_length_cons (e : Edit) (rest : list Edit) :
  List.length (news (e :: rest))
  = (if removed (partOf e) then 0 else 1) + List.length (news rest).
Proof. destruct e; reflexivity. Qed.

Lemma oldSteps_cons (e : Edit) (rest : list Edit) :
  oldSteps (e :: rest) = (if added (partOf e) then 0 else 1) + oldSteps rest.
Proof. destruct e; reflexivity. Qed.

Lemma removed_not_added (e : Edit) :
  added (partOf e) = true -> removed (partOf e) = false.
Proof. destruct e; simpl; congruence. Qed.

(** Grouping the steps of a script into parts and splitting the text of each
    part into lines again gives back one line per step. *)
Lemma buildValues_counts (script : list Edit) :
  wfTokens (news script) -> wfTokens (dels script) ->
  oldLineCount (buildValues script) = oldSteps script
  /\ newLineCount (buildValues script) = List.length (news script).
Proof.
  induction script as [|e rest IH]; intros Hn Hd; [split; reflexivity|].
  destruct (wf_rest e rest Hn Hd) as [Hn' Hd'].
  destruct (IH Hn' Hd') as [IHo IHn].
  pose proof (wf_head_lineTok e rest Hn Hd) as Hline.
  rewrite oldSteps_cons, news_length_cons.
  cbn [buildValues]. destruct (buildValues rest) as [|p parts] eqn:Hb.
  - apply buildValues_nil in Hb. subst rest.
    rewrite oldLineCount_cons, newLineCount_cons, partLines_partOf by assumption.
    destruct e; split; reflexivity.
  - destruct (sameTag e p) eqn:Ht.
    + destruct rest as [|e2 rest']; [discriminate|].
      destruct (buildValues_head e2 rest' p parts Hb) as [Ha2 Hr2].
      destruct (sameTag_flags e p Ht) as [Ha Hr].
      assert (Hterm : terminated (tokenOf e)).
      { apply (wf_head_terminated e e2 rest' Hn Hd); congruence. }
      rewrite oldLineCount_cons, newLineCount_cons in *.
      unfold partLines in *. cbn [value added removed] in *.
      rewrite (lines_terminated_app _ _ Hterm), <- Ha, <- Hr.
      rewrite <- IHo, <- IHn.
      pose proof (removed_not_added e) as Hra. rewrite <- Ha, <- Hr in Hra.
      destruct (added p); [rewrite Hra by reflexivity|destruct (removed p)];
        split; lia.
    + rewrite oldLineCount_cons, newLineCount_cons, partLines_partOf by assumption.
      rewrite IHo, IHn.
      pose proof (removed_not_added e) as Hra.
      destruct (added (partOf e)); [rewrite Hra by reflexivity|];
        [|destruct (removed (partOf e))]; split; lia.
Qed.

(** ** The rows of the component and the tokens of its two texts *)

Lemma diffLines_lineCounts (oldStr newStr : string) :
  oldLineCount (diffLines oldStr newStr) = List.length (tokenize oldStr)
  /\ newLineCount (diffLines oldStr newStr) = List.length (tokenize newStr).
Proof.
  unfold diffLines.
  destruct (buildValues_counts (editScript (tokenize oldStr) (tokenize newStr)))
    as [Ho Hn].
  - rewrite news_editScript. apply tokenize_wf.
  - apply dels_editScript_wf, tokenize_wf.
  - rewrite Ho, Hn, oldSteps_editScript, news_editScript. split; reflexivity.
Qed.

Lemma DiffViewer_rows_counts (oldContent newContent : string) :
  countOld (DiffViewer_rows oldContent newContent)
  = List.length (popIfLastEmpty (split LF oldContent))
  /\ countNew (DiffViewer_rows oldContent newContent)
     = List.length (popIfLastEmpty (split LF newContent)).
Proof.
  unfold DiffViewer_rows.
  rewrite getDiffRows_countOld, getDiffRows_countNew, <- !tokenize_length.
  apply diffLines_lineCounts.
Qed.

(** ** normalizeText on texts without a lone carriage return *)

Lemma string_ind2 (P : string -> Prop) :
  P EmptyString ->
  (forall c, P (str1 c)) ->
  (forall c d s, P s -> P (String d s) -> P (String c (String d s))) ->
  forall s, P s.
Proof.
  intros H0 H1 H2 s.
  enough (P s /\ forall c, P (String c s)) as [H _] by exact H.
  induction s as [|d s [IHs IHc]]; split; auto.
Qed.

Lemma tokenize_length_cons (c : ascii) (s : string) :
  List.length (tokenize (String c s))
  = if Ascii.eqb c LF then S (List.length (tokenize s))
    else Nat.max 1 (List.length (tokenize s)).
Proof.
  simpl. destruct (Ascii.eqb c LF); [reflexivity|].
  destruct (tokenize s); simpl; lia.
Qed.

Lemma replaceCRLF_cons (c : ascii) (s : string) :
  Ascii.eqb c CR = false -> replaceCRLF (String c s) = String c (replaceCRLF s).
Proof. intros Hc. destruct s; simpl; [reflexivity|]. rewrite Hc. reflexivity. Qed.

Lemma noBareCR_CR (d : ascii) (s : string) :
  noBareCR (String CR (String d s)) = true -> d = LF /\ noBareCR s = true.
Proof.
  simpl. intros H. apply andb_prop in H. destruct H as [Hd H].
  apply Ascii.eqb_eq in Hd. subst d. simpl in H. split; [reflexivity|exact H].
Qed.

Lemma noBareCR_tail (c : ascii) (s : string) :
  noBareCR (String c s) = true -> noBareCR s = true.
Proof. simpl. intros H. apply andb_prop in H. apply H. Qed.

Lemma tokenize_replaceCRLF (s : string) :
  noBareCR s = true ->
  List.length (tokenize (replaceCRLF s)) = List.length (tokenize s).
Proof.
  induction s as [|c|c d s IHs IHd] using string_ind2; intros H; try reflexivity.
  destruct (Ascii.eqb c CR) eqn:Hc.
  - apply Ascii.eqb_eq in Hc. subst c.
    apply noBareCR_CR in H. destruct H as [-> H].
    change (replaceCRLF (String CR (String LF s))) with (String LF (replaceCRLF s)).
    rewrite !tokenize_length_cons, (IHs H).
    change (Ascii.eqb CR LF) with false. change (Ascii.eqb LF LF) with true.
    cbv iota. lia.
  - rewrite (replaceCRLF_cons _ _ Hc).
    rewrite (tokenize_length_cons c (replaceCRLF (String d s))).
    rewrite (tokenize_length_cons c (String d s)).
    rewrite (IHd (noBareCR_tail _ _ H)). reflexivity.
Qed.

Lemma noCR_replaceCRLF (s : string) :
  noBareCR s = true -> noCR (replaceCRLF s) = true.
Proof.
  induction s as [|c|c d s IHs IHd] using string_ind2; intros H.
  - reflexivity.
  - simpl in *. destruct (Ascii.eqb c CR); [discriminate|reflexivity].
  - destruct (Ascii.eqb c CR) eqn:Hc.
    + apply Ascii.eqb_eq in Hc. subst c.
      apply noBareCR_CR in H. destruct H as [-> H].
      change (replaceCRLF (String CR (String LF s))) with (String LF (replaceCRLF s)).
      simpl. apply IHs, H.
    + rewrite (replaceCRLF_cons _ _ Hc). cbn [noCR]. rewrite Hc.
      apply IHd, (noBareCR_tail _ _ H).
Qed.

Lemma replaceCR_noCR (s : string) : noCR s = true -> replaceCR s = s.
Proof.
  induction s as [|c s IH]; simpl; intros H; [reflexivity|].
  apply andb_prop in H. destruct H as [Hc Hs].
  apply negb_true_iff in Hc. rewrite Hc, (IH Hs). reflexivity.
Qed.

(** On such a text the two replacements only remove the carriage returns:
    the lines stay as many. *)
Lemma textLines_length (content : string) :
  noBareCR content = true ->
  List.length (popIfLastEmpty (textLines content))
  = List.length (popIfLastEmpty (split LF content)).
Proof.
  intros H. unfold textLines, normalizeText.
  rewrite (replaceCR_noCR _ (noCR_replaceCRLF _ H)).
  rewrite <- !tokenize_length. apply tokenize_replaceCRLF, H.
Qed.

(** ** Identical texts *)

Lemma sameLine_refl (a : string) : sameLine a a = true.
Proof. unfold sameLine. apply String.eqb_refl. Qed.

Lemma editScript_same (toks : list string) : editScript toks toks = map Keep toks.
Proof.
  induction toks as [|t toks IH]; [reflexivity|].
  rewrite editScript_cons, sameLine_refl, IH. reflexivity.
Qed.

Lemma buildValues_Keep (toks : list string) :
  Forall unchanged (buildValues (map Keep toks)).
Proof.
  induction toks as [|t toks IH]; simpl; [constructor|].
  destruct (buildValues (map Keep toks)) as [|p parts].
  - constructor; [split; reflexivity|constructor].
  - inversion IH as [|? ? Hp Hparts]; subst.
    destruct (sameTag (Keep t) p).
    + constructor; [exact Hp|exact Hparts].
    + constructor; [split; reflexivity|exact IH].
Qed.

Lemma InvSame_pushRow (part : DiffPart) (st : Locals) (line : string) :
  unchanged part -> InvSame st -> InvSame (pushRow part st line).
Proof.
  intros [Ha Hr] [Hi Hrows]. unfold pushRow. rewrite Ha, Hr. split; simpl.
  - now rewrite Hi.
  - apply Forall_app. split; [exact Hrows|].
    constructor; [|constructor]. split; simpl; [reflexivity|now rewrite Hi].
Qed.

Lemma InvSame_forParts (lineDiff : list DiffPart) (st : Locals) :
  Forall unchanged lineDiff -> InvSame st -> InvSame (forParts lineDiff st).
Proof.
  intros Hall. revert st. induction Hall as [|p ps Hp _ IH]; intros st Hst.
  - exact Hst.
  - apply IH. unfold forPart.
    apply fold_left_preserves; [|exact Hst].
    intros a b. apply InvSame_pushRow, Hp.
Qed.

(** Unchanged parts only give rows of kind ['equal'] with equal indices. *)
Lemma getDiffRows_unchanged (lineDiff : list DiffPart) :
  Forall unchanged lineDiff -> Forall rowSame (getDiffRows lineDiff).
Proof.
  intros H. apply (InvSame_forParts lineDiff initLocals H).
  split; [reflexivity|constructor].
Qed.

Lemma tokenize_nonempty (t : string) : t <> EmptyString -> tokenize t <> [].
Proof.
  destruct t as [|c t]; [contradiction|]. intros _. simpl.
  destruct (Ascii.eqb c LF); [discriminate|].
  destruct (tokenize t); discriminate.
Qed.

(** ** The store *)

Lemma execLines_frame (part : DiffPart) (s : Store) :
  s_oldContent (execLines part s) = s_oldContent s
  /\ s_newContent (execLines part s) = s_newContent s
  /\ s_lineDiff (execLines part s) = s_lineDiff s
  /\ s_locals (execLines part s) = fold_left (pushRow part) (s_lines s) (s_locals s).
Proof.
  unfold execLines. generalize (s_lines s) as lines. intros lines. revert s.
  induction lines as [|l lines IH]; intros s; simpl; [repeat split|].
  destruct (IH (setLocals (pushRow part (s_locals s) l) s)) as (H1 & H2 & H3 & H4).
  rewrite H1, H2, H3, H4. repeat split.
Qed.

Lemma execSplit_frame (part : DiffPart) (s : Store) :
  s_oldContent (execSplit part s) = s_oldContent s
  /\ s_newContent (execSplit part s) = s_newContent s
  /\ s_lineDiff (execSplit part s) = s_lineDiff s
  /\ s_locals (execSplit part s) = s_locals s
  /\ s_lines (execSplit part s) = partLines part.
Proof.
  unfold execSplit, partLines, popIfLastEmpty. simpl.
  destruct (at_last (split LF (value part))) as [[|c x]|]; repeat split.
Qed.

Lemma execParts_frame (parts : list DiffPart) (s : Store) :
  let s' := fold_left (fun s' part => execLines part (execSplit part s')) parts s in
  s_oldContent s' = s_oldContent s
  /\ s_newContent s' = s_newContent s
  /\ s_lineDiff s' = s_lineDiff s
  /\ s_locals s' = forParts parts (s_locals s).
Proof.
  revert s. induction parts as [|p ps IH]; intros s; simpl; [repeat split|].
  destruct (IH (execLines p (execSplit p s))) as (H1 & H2 & H3 & H4).
  destruct (execLines_frame p (execSplit p s)) as (L1 & L2 & L3 & L4).
  destruct (execSplit_frame p s) as (S1 & S2 & S3 & S4 & S5).
  rewrite H1, H2, H3, H4, L1, L2, L3, L4, S1, S2, S3, S4, S5. repeat split.
Qed.

(** On the store, [getDiffRows] returns what the fold returns and leaves
    the props and the parts as they were. *)
Lemma execGetDiffRows_spec (s : Store) :
  returned (execGetDiffRows s) = getDiffRows (s_lineDiff s)
  /\ s_oldContent (execGetDiffRows s) = s_oldContent s
  /\ s_newContent (execGetDiffRows s) = s_newContent s
  /\ s_lineDiff (execGetDiffRows s) = s_lineDiff s.
Proof.
  unfold execGetDiffRows, returned, getDiffRows.
  destruct (execParts_frame (s_lineDiff s) (setLocals initLocals s))
    as (H1 & H2 & H3 & H4).
  simpl in *. rewrite H1, H2, H3, H4. repeat split.
Qed.

Lemma execDiffViewer_spec (primitive : string -> string -> list DiffPart) (s : Store) :
  returned (execDiffViewer primitive s)
  = getDiffRows (primitive (s_oldContent s) (s_newContent s))
  /\ s_oldContent (execDiffViewer primitive s) = s_oldContent s
  /\ s_newContent (execDiffViewer primitive s) = s_newContent s.
Proof.
  unfold execDiffViewer.
  destruct (execGetDiffRows_spec
              (setLineDiff (primitive (s_oldContent s) (s_newContent s)) s))
    as (H1 & H2 & H3 & _).
  rewrite H1, H2, H3. repeat split.
Qed.

(** ** Parts without text *)

Lemma forPart_empty (st : Locals) (a r : bool) :
  forPart st (mkPart EmptyString a r) = st.
Proof. reflexivity. Qed.

Lemma forParts_app (before after : list DiffPart) (st : Locals) :
  forParts (before ++ after) st = forParts after (forParts before st).
Proof. unfold forParts. apply fold_left_app. Qed.

Lemma forParts_empty (flags : list (bool * bool)) (st : Locals) :
  forParts (map (fun f => mkPart EmptyString (fst f) (snd f)) flags) st = st.
Proof.
  induction flags as [|f flags IH]; [reflexivity|].
  simpl. unfold forParts in IH. rewrite forPart_empty. exact IH.
Qed.

(** * The properties of the specification *)

Section AnyDiffResult.

(** The array bound at line 17, whatever the line-diff primitive returned
    for the two texts. *)
Variable lineDiff : list DiffPart.

(** C2.  In the rows of [getDiffRows] the old indices, taken over the rows
    that have one and in the order of the rows, are strictly increasing,
    and so are the new indices. *)
Theorem getDiffRows_indices_increasing :
  StronglySorted lt (oldIdxs (getDiffRows lineDiff))
  /\ StronglySorted lt (newIdxs (getDiffRows lineDiff)).
Proof.
  rewrite getDiffRows_oldIdxs, getDiffRows_newIdxs.
  split; apply seq_StronglySorted.
Qed.

(** C3.  Every row of [getDiffRows] has the shape of its kind: an added row
    has no old index and has a new one, a removed row has no new index and
    has an old one, an unchanged row has both; no row lacks both. *)
Theorem getDiffRows_row_shapes :
  Forall rowShape (getDiffRows lineDiff)
  /\ Forall (fun r => present (oldIdx r) || present (newIdx r) = true)
            (getDiffRows lineDiff).
Proof.
  pose proof (inv_shape _ (getDiffRows_Inv lineDiff)) as H.
  fold (getDiffRows lineDiff) in H. split; [exact H|].
  eapply Forall_impl; [|exact H]. intros r. unfold rowShape.
  destruct (kind r), (oldIdx r), (newIdx r); simpl; intros [H1 H2];
    congruence.
Qed.

(** C9.  The old indices present in the rows of [getDiffRows] are exactly
    1, 2, ..., K in this order, K being the number of rows with an old
    index; the new indices present are exactly 1, 2, ..., M likewise. *)
Theorem getDiffRows_indices_contiguous :
  oldIdxs (getDiffRows lineDiff) = seq 1 (countOld (getDiffRows lineDiff))
  /\ newIdxs (getDiffRows lineDiff) = seq 1 (countNew (getDiffRows lineDiff)).
Proof. split; [apply getDiffRows_oldIdxs|apply getDiffRows_newIdxs]. Qed.

End AnyDiffResult.

(** C10.  A part whose text is empty gives no row: dropping it from a diff
    result leaves the rows as they are, and a diff result made of such parts
    only gives no row at all.  For two empty texts the component has no row:
    there is no single unchanged row with empty text. *)
Theorem getDiffRows_empty_part_no_rows :
  (forall (before after : list DiffPart) (a r : bool),
      getDiffRows (before ++ mkPart EmptyString a r :: after)
      = getDiffRows (before ++ after))
  /\ (forall flags : list (bool * bool),
         getDiffRows (map (fun f => mkPart EmptyString (fst f) (snd f)) flags) = [])
  /\ DiffViewer_rows EmptyString EmptyString = [].
Proof.
  split; [|split].
  - intros before after a r. unfold getDiffRows.
    rewrite !forParts_app. reflexivity.
  - intros flags. unfold getDiffRows. rewrite forParts_empty. reflexivity.
  - reflexivity.
Qed.

(** C4.  For "Old\nContent" and "New\nContent" the component has exactly
    three rows, in this order: removed "Old" with old index 1 and no new
    index, added "New" with new index 1 and no old index, unchanged
    "Content" with both indices 2. *)
Theorem DiffViewer_rows_mixed :
  DiffViewer_rows ("Old" ++ nl ++ "Content") ("New" ++ nl ++ "Content")
  = [mkRow (Some 1) None del "Old";
     mkRow None (Some 1) add "New";
     mkRow (Some 2) (Some 2) equal "Content"].
Proof. reflexivity. Qed.

(** C6.  For "" and "A\nB" the component has exactly two rows, both added,
    with new indices 1 and 2 and no old index. *)
Theorem DiffViewer_rows_pure_addition :
  DiffViewer_rows EmptyString ("A" ++ nl ++ "B")
  = [mkRow None (Some 1) add "A"; mkRow None (Some 2) add "B"].
Proof. reflexivity. Qed.

(** C7.  For "Old\r\nContent" and "New\nContent" the rows have the kinds and
    the indices of the rows for "Old\nContent" and "New\nContent", but not
    their texts: the removed row keeps the carriage return, its text is
    "Old\r" and not "Old". *)
Theorem DiffViewer_rows_crlf :
  DiffViewer_rows ("Old" ++ crlf ++ "Content") ("New" ++ nl ++ "Content")
  = [mkRow (Some 1) None del ("Old" ++ str1 CR);
     mkRow None (Some 1) add "New";
     mkRow (Some 2) (Some 2) equal "Content"]
  /\ map (fun r => (kind r, oldIdx r, newIdx r))
         (DiffViewer_rows ("Old" ++ crlf ++ "Content") ("New" ++ nl ++ "Content"))
     = map (fun r => (kind r, oldIdx r, newIdx r))
           (DiffViewer_rows ("Old" ++ nl ++ "Content") ("New" ++ nl ++ "Content"))
  /\ DiffViewer_rows ("Old" ++ crlf ++ "Content") ("New" ++ nl ++ "Content")
     <> DiffViewer_rows ("Old" ++ nl ++ "Content") ("New" ++ nl ++ "Content").
Proof. split; [reflexivity|]. split; [reflexivity|discriminate]. Qed.

(** C5.  For a non-empty text given as both the old and the new text, the
    component has at least one row, every row is unchanged, and in every row
    the old index equals the new index. *)
Theorem DiffViewer_rows_identity (t : string) :
  t <> EmptyString ->
  DiffViewer_rows t t <> []
  /\ Forall (fun r => kind r = equal /\ oldIdx r = newIdx r) (DiffViewer_rows t t).
Proof.
  intros Hne. split.
  - intros Hnil.
    destruct (DiffViewer_rows_counts t t) as [Hc _].
    rewrite Hnil, <- tokenize_length in Hc.
    apply (tokenize_nonempty t Hne).
    destruct (tokenize t); [reflexivity|discriminate].
  - unfold DiffViewer_rows, diffLines. rewrite editScript_same.
    apply getDiffRows_unchanged, buildValues_Keep.
Qed.

Lemma DiffViewer_rows_identity_witness :
  "Content" <> EmptyString
  /\ DiffViewer_rows "Content" "Content" <> []
  /\ Forall (fun r => kind r = equal /\ oldIdx r = newIdx r)
            (DiffViewer_rows "Content" "Content").
Proof.
  split; [discriminate|].
  apply (DiffViewer_rows_identity "Content"). discriminate.
Defined.

(** C1, as stated, fails: for two empty texts the component has no row,
    while [''.split('\n')] has one line; and for "A\rB" it has one row,
    while the normalized text has two lines. *)
Lemma row_count_differs_from_textLines :
  countOld (DiffViewer_rows EmptyString EmptyString)
    <> List.length (textLines EmptyString)
  /\ countOld (DiffViewer_rows ("A" ++ str1 CR ++ "B") ("A" ++ str1 CR ++ "B"))
    <> List.length (textLines ("A" ++ str1 CR ++ "B")).
Proof. split; discriminate. Qed.

(** C1, amended.  For two texts in which every carriage return is followed
    by a line feed, the rows with an old index are as many as the lines of
    the old text, normalized and split at line feeds, without a final empty
    line; the rows with a new index as many as those of the new text. *)
Theorem row_counts_match_line_counts (oldContent newContent : string) :
  noBareCR oldContent = true ->
  noBareCR newContent = true ->
  countOld (DiffViewer_rows oldContent newContent)
  = List.length (popIfLastEmpty (textLines oldContent))
  /\ countNew (DiffViewer_rows oldContent newContent)
     = List.length (popIfLastEmpty (textLines newContent)).
Proof.
  intros Ho Hn. rewrite (textLines_length _ Ho), (textLines_length _ Hn).
  apply DiffViewer_rows_counts.
Qed.

Lemma row_counts_match_line_counts_witness :
  noBareCR ("A" ++ crlf ++ "B" ++ nl) = true
  /\ noBareCR EmptyString = true
  /\ countOld (DiffViewer_rows ("A" ++ crlf ++ "B" ++ nl) EmptyString)
     = List.length (popIfLastEmpty (textLines ("A" ++ crlf ++ "B" ++ nl)))
  /\ countNew (DiffViewer_rows ("A" ++ crlf ++ "B" ++ nl) EmptyString)
     = List.length (popIfLastEmpty (textLines EmptyString)).
Proof.
  split; [reflexivity|]. split; [reflexivity|].
  apply (row_counts_match_line_counts ("A" ++ crlf ++ "B" ++ nl) EmptyString);
    reflexivity.
Defined.

(** C8.  One call of the component, started from stores that hold the same
    two texts, returns the same rows whatever else the stores hold; a second
    call returns the rows of the first; the call leaves the two texts as they
    were, and [getDiffRows] leaves the parts it reads as they were. *)
Theorem execDiffViewer_deterministic_pure
    (primitive : string -> string -> list DiffPart) (s1 s2 : Store) :
  s_oldContent s1 = s_oldContent s2 ->
  s_newContent s1 = s_newContent s2 ->
  returned (execDiffViewer primitive s1) = returned (execDiffViewer primitive s2)
  /\ returned (execDiffViewer primitive (execDiffViewer primitive s1))
     = returned (execDiffViewer primitive s1)
  /\ s_oldContent (execDiffViewer primitive s1) = s_oldContent s1
  /\ s_newContent (execDiffViewer primitive s1) = s_newContent s1
  /\ s_lineDiff (execGetDiffRows s1) = s_lineDiff s1.
Proof.
  intros Ho Hn.
  destruct (execDiffViewer_spec primitive s1) as (R1 & O1 & N1).
  destruct (execDiffViewer_spec primitive s2) as (R2 & _ & _).
  destruct (execDiffViewer_spec primitive (execDiffViewer primitive s1))
    as (R3 & _ & _).
  destruct (execGetDiffRows_spec s1) as (_ & _ & _ & L1).
  rewrite R3, O1, N1, R1, R2, Ho, Hn. repeat split; assumption.
Qed.

Lemma execDiffViewer_deterministic_pure_witness :
  s_oldContent freshStore = s_oldContent usedStore
  /\ s_newContent freshStore = s_newContent usedStore
  /\ returned (execDiffViewer diffLines freshStore)
     = returned (execDiffViewer diffLines usedStore)
  /\ returned (execDiffViewer diffLines (execDiffViewer diffLines freshStore))
     = returned (execDiffViewer diffLines freshStore)
  /\ s_oldContent (execDiffViewer diffLines freshStore) = s_oldContent freshStore
  /\ s_newContent (execDiffViewer diffLines freshStore) = s_newContent freshStore
  /\ s_lineDiff (execGetDiffRows freshStore) = s_lineDiff freshStore.
Proof.
  split; [reflexivity|]. split; [reflexivity|].
  apply (execDiffViewer_deterministic_pure diffLines freshStore usedStore);
    reflexivity.
Defined.

(** * Further properties of the component *)

(** ** The rows follow the parts *)

Lemma pushRows_kindText (part : DiffPart) (lines : list string) (st : Locals) :
  map kindText (l_rows (fold_left (pushRow part) lines st))
  = map kindText (l_rows st) ++ map (pair (partKind part)) lines.
Proof.
  revert st. induction lines as [|l lines IH]; intros st; simpl.
  - now rewrite app_nil_r.
  - rewrite IH. unfold pushRow, partKind.
    destruct (added part); [|destruct (removed part)]; simpl;
      rewrite map_app, <- app_assoc; reflexivity.
Qed.

Lemma forParts_kindText (lineDiff : list DiffPart) (st : Locals) :
  map kindText (l_rows (forParts lineDiff st))
  = map kindText (l_rows st)
    ++ flat_map (fun p => map (pair (partKind p)) (partLines p)) lineDiff.
Proof.
  unfold forParts. revert st.
  induction lineDiff as [|p ps IH]; intros st; simpl.
  - now rewrite app_nil_r.
  - rewrite IH. unfold forPart. rewrite pushRows_kindText, <- app_assoc.
    reflexivity.
Qed.

Lemma newSide_app (a b : list DiffRow) : newSide (a ++ b) = newSide a ++ newSide b.
Proof. unfold newSide. now rewrite filter_app, map_app. Qed.

Lemma oldSide_app (a b : list DiffRow) : oldSide (a ++ b) = oldSide a ++ oldSide b.
Proof. unfold oldSide. now rewrite filter_app, map_app. Qed.

Lemma pushRows_newSide (part : DiffPart) (lines : list string) (st : Locals) :
  newSide (l_rows (fold_left (pushRow part) lines st))
  = newSide (l_rows st)
    ++ (if added part then lines else if removed part then [] else lines).
Proof.
  revert st. induction lines as [|l lines IH]; intros st; simpl.
  - destruct (added part); [|destruct (removed part)]; now rewrite app_nil_r.
  - rewrite IH. unfold pushRow.
    destruct (added part); [|destruct (removed part)]; simpl;
      rewrite newSide_app; simpl; rewrite <- ?app_assoc, ?app_nil_r; reflexivity.
Qed.

Lemma pushRows_oldSide (part : DiffPart) (lines : list string) (st : Locals) :
  oldSide (l_rows (fold_left (pushRow part) lines st))
  = oldSide (l_rows st) ++ (if added part then [] else lines).
Proof.
  revert st. induction lines as [|l lines IH]; intros st; simpl.
  - destruct (added part); now rewrite app_nil_r.
  - rewrite IH. unfold pushRow.
    destruct (added part); [|destruct (removed part)]; simpl;
      rewrite oldSide_app; simpl; rewrite <- ?app_assoc, ?app_nil_r; reflexivity.
Qed.

Lemma getDiffRows_newSide (lineDiff : list DiffPart) :
  newSide (getDiffRows lineDiff) = newLinesOf lineDiff.
Proof.
  unfold getDiffRows, forParts, newLinesOf.
  change (newSide (l_rows (fold_left forPart lineDiff initLocals))
          = newSide (l_rows initLocals)
            ++ flat_map (fun p => if added p then partLines p
                                  else if removed p then [] else partLines p)
                        lineDiff).
  generalize initLocals as st.
  induction lineDiff as [|p ps IH]; intros st; simpl.
  - now rewrite app_nil_r.
  - rewrite IH. unfold forPart. rewrite pushRows_newSide, <- app_assoc.
    reflexivity.
Qed.

Lemma getDiffRows_oldSide (lineDiff : list DiffPart) :
  oldSide (getDiffRows lineDiff) = oldLinesOf lineDiff.
Proof.
  unfold getDiffRows, forParts, oldLinesOf.
  change (oldSide (l_rows (fold_left forPart lineDiff initLocals))
          = oldSide (l_rows initLocals)
            ++ flat_map (fun p => if added p then [] else partLines p) lineDiff).
  generalize initLocals as st.
  induction lineDiff as [|p ps IH]; intros st; simpl.
  - now rewrite app_nil_r.
  - rewrite IH. unfold forPart. rewrite pushRows_oldSide, <- app_assoc.
    reflexivity.
Qed.

Lemma split_pieces_noLF (s : string) : Forall (fun l => noLF l = true) (split LF s).
Proof.
  induction s as [|c s IH]; simpl.
  - constructor; [reflexivity|constructor].
  - destruct (Ascii.eqb c LF) eqn:Hc.
    + constructor; [reflexivity|exact IH].
    + destruct (split LF s) as [|piece pieces].
      * constructor; [simpl; now rewrite Hc|constructor].
      * inversion IH as [|? ? Hp Hps]; subst.
        constructor; [simpl; now rewrite Hc, Hp|exact Hps].
Qed.

Lemma Forall_removelast {A : Type} (P : A -> Prop) (l : list A) :
  Forall P l -> Forall P (removelast l).
Proof.
  induction 1 as [|x l Hx Hl IH]; simpl; [constructor|].
  destruct l; [constructor|]. constructor; assumption.
Qed.

Lemma partLines_noLF (part : DiffPart) : Forall (fun l => noLF l = true) (partLines part).
Proof.
  unfold partLines, popIfLastEmpty.
  pose proof (split_pieces_noLF (value part)) as H.
  destruct (at_last (split LF (value part))) as [[|c x]|];
    auto using Forall_removelast.
Qed.

Lemma getDiffRows_kindText (lineDiff : list DiffPart) :
  map kindText (getDiffRows lineDiff)
  = flat_map (fun p => map (pair (partKind p)) (partLines p)) lineDiff.
Proof. unfold getDiffRows. now rewrite forParts_kindText. Qed.

(** X1.  The rows come in the order of the parts and, within a part, of its
    lines; every line of every part gives exactly one row, with the kind of
    the part and the line as text: nothing is merged, dropped or reordered. *)
Theorem getDiffRows_follows_parts (lineDiff : list DiffPart) :
  map kindText (getDiffRows lineDiff)
  = flat_map (fun p => map (pair (partKind p)) (partLines p)) lineDiff.
Proof. apply getDiffRows_kindText. Qed.

(** X2.  The text of a row never holds a line feed: a row is one line. *)
Theorem getDiffRows_rows_single_line (lineDiff : list DiffPart) :
  Forall (fun r => noLF (text r) = true) (getDiffRows lineDiff).
Proof.
  apply Forall_forall. intros r Hr.
  assert (Hin : In (kindText r) (map kindText (getDiffRows lineDiff)))
    by (apply in_map; exact Hr).
  rewrite getDiffRows_kindText in Hin.
  apply in_flat_map in Hin. destruct Hin as [p [_ Hin]].
  apply in_map_iff in Hin. destruct Hin as [l [Heq Hl]].
  unfold kindText in Heq. injection Heq as _ <-.
  pose proof (partLines_noLF p) as Hp.
  rewrite Forall_forall in Hp. apply Hp, Hl.
Qed.
(** ** The lines of the tokens *)

Lemma lineOf_cons (c : ascii) (t : string) :
  Ascii.eqb c LF = false -> lineOf (String c t) = String c (lineOf t).
Proof.
  intros Hc. unfold lineOf. simpl. rewrite Hc.
  pose proof (split_nonempty LF t) as Hne.
  destruct (split LF t); [contradiction|reflexivity].
Qed.

Lemma lineOf_terminated (body : string) :
  noLF body = true -> lineOf (body ++ nl) = body.
Proof.
  intros Hb. unfold lineOf.
  rewrite <- (append_nil_r (body ++ nl)), (split_terminated body EmptyString Hb).
  reflexivity.
Qed.

Lemma partLines_terminated_app (t v : string) :
  terminated t ->
  popIfLastEmpty (split LF (t ++ v)%string)
  = lineOf t :: popIfLastEmpty (split LF v).
Proof.
  intros [body [Hb ->]]. rewrite (split_terminated body v Hb).
  rewrite popIfLastEmpty_cons by apply split_nonempty.
  now rewrite lineOf_terminated.
Qed.

Lemma partLines_lineTok (t : string) :
  lineTok t -> popIfLastEmpty (split LF t) = [lineOf t].
Proof.
  intros [Ht|[Hne Hn]].
  - rewrite <- (append_nil_r t) at 1. now rewrite partLines_terminated_app.
  - unfold lineOf. rewrite split_noLF by assumption.
    destruct t; [contradiction|reflexivity].
Qed.

(** The lines of the tokens of a text are the lines [split] gives once a
    trailing empty line is dropped. *)
Lemma tokenize_lines (s : string) :
  map lineOf (tokenize s) = popIfLastEmpty (split LF s).
Proof.
  induction s as [|c s IH]; simpl; [reflexivity|].
  destruct (Ascii.eqb c LF) eqn:Hc.
  - rewrite popIfLastEmpty_cons by apply split_nonempty. simpl. now rewrite IH.
  - destruct (split LF s) as [|piece [|q qs]] eqn:Hs.
    + exfalso. exact (split_nonempty LF s Hs).
    + destruct piece as [|d piece]; cbn in IH.
      * destruct (tokenize s); [|discriminate]. cbn.
        unfold lineOf. simpl. now rewrite Hc.
      * destruct (tokenize s) as [|tok [|tok' toks]]; try discriminate.
        cbn in IH. injection IH as IH. cbn.
        rewrite (lineOf_cons _ _ Hc), IH. reflexivity.
    + rewrite popIfLastEmpty_cons in IH by discriminate.
      rewrite popIfLastEmpty_cons by discriminate.
      destruct (tokenize s) as [|tok toks]; [discriminate|].
      cbn [map] in *. injection IH as IH1 IH2.
      rewrite (lineOf_cons _ _ Hc), IH1, IH2. reflexivity.
Qed.

Lemma oldToks_cons (e : Edit) (rest : list Edit) :
  oldToks (e :: rest)
  = (if added (partOf e) then [] else [tokenOf e]) ++ oldToks rest.
Proof. destruct e; reflexivity. Qed.

Lemma news_cons (e : Edit) (rest : list Edit) :
  news (e :: rest) = (if removed (partOf e) then [] else [tokenOf e]) ++ news rest.
Proof. destruct e; reflexivity. Qed.

Lemma oldLinesOf_cons (p : DiffPart) (parts : list DiffPart) :
  oldLinesOf (p :: parts) = (if added p then [] else partLines p) ++ oldLinesOf parts.
Proof. reflexivity. Qed.

Lemma newLinesOf_cons (p : DiffPart) (parts : list DiffPart) :
  newLinesOf (p :: parts)
  = (if added p then partLines p else if removed p then [] else partLines p)
    ++ newLinesOf parts.
Proof. reflexivity. Qed.

Lemma partLines_partOf_line (e : Edit) :
  lineTok (tokenOf e) -> partLines (partOf e) = [lineOf (tokenOf e)].
Proof. intros H. destruct e; unfold partLines; simpl; apply partLines_lineTok, H. Qed.

(** Grouping the steps of a script into parts and splitting the text of
    each part again gives back the line of every step, in order. *)
Lemma buildValues_lines (script : list Edit) :
  wfTokens (news script) -> wfTokens (dels script) ->
  oldLinesOf (buildValues script) = map lineOf (oldToks script)
  /\ newLinesOf (buildValues script) = map lineOf (news script).
Proof.
  induction script as [|e rest IH]; intros Hn Hd; [split; reflexivity|].
  destruct (wf_rest e rest Hn Hd) as [Hn' Hd'].
  destruct (IH Hn' Hd') as [IHo IHn].
  pose proof (wf_head_lineTok e rest Hn Hd) as Hline.
  pose proof (removed_not_added e) as Hra.
  rewrite oldToks_cons, news_cons, !map_app.
  cbn [buildValues]. destruct (buildValues rest) as [|p parts] eqn:Hb.
  - apply buildValues_nil in Hb. subst rest.
    rewrite oldLinesOf_cons, newLinesOf_cons, partLines_partOf_line by assumption.
    destruct e; split; reflexivity.
  - destruct (sameTag e p) eqn:Ht.
    + destruct rest as [|e2 rest']; [discriminate|].
      destruct (buildValues_head e2 rest' p parts Hb) as [Ha2 Hr2].
      destruct (sameTag_flags e p Ht) as [Ha Hr].
      assert (Hterm : terminated (tokenOf e)).
      { apply (wf_head_terminated e e2 rest' Hn Hd); congruence. }
      rewrite oldLinesOf_cons, newLinesOf_cons in *.
      unfold partLines in *. cbn [value added removed] in *.
      rewrite (partLines_terminated_app _ _ Hterm), <- Ha, <- Hr.
      rewrite <- IHo, <- IHn. rewrite <- Ha, <- Hr in Hra.
      destruct (added p); [rewrite Hra by reflexivity|destruct (removed p)];
        split; reflexivity.
    + rewrite oldLinesOf_cons, newLinesOf_cons, partLines_partOf_line by assumption.
      rewrite IHo, IHn.
      destruct (added (partOf e)); [rewrite Hra by reflexivity|];
        [|destruct (removed (partOf e))]; split; reflexivity.
Qed.

Lemma diffLines_lines (oldStr newStr : string) :
  oldLinesOf (diffLines oldStr newStr)
  = map lineOf (oldToks (editScript (tokenize oldStr) (tokenize newStr)))
  /\ newLinesOf (diffLines oldStr newStr) = popIfLastEmpty (split LF newStr).
Proof.
  unfold diffLines.
  destruct (buildValues_lines (editScript (tokenize oldStr) (tokenize newStr)))
    as [Ho Hn].
  - rewrite news_editScript. apply tokenize_wf.
  - apply dels_editScript_wf, tokenize_wf.
  - rewrite Ho, Hn, news_editScript, tokenize_lines. split; reflexivity.
Qed.


(** ** What the two sides of the diff show *)

Lemma trimEnd_app_nl (body : string) : trimEnd (body ++ nl) = trimEnd body.
Proof.
  induction body as [|c body IH]; [reflexivity|].
  cbn [append trimEnd]. now rewrite IH.
Qed.

Lemma trim_lineOf (t : string) : lineTok t -> trim (lineOf t) = trim t.
Proof.
  intros [[body [Hb ->]]|[_ Hn]].
  - rewrite lineOf_terminated by assumption. unfold trim.
    now rewrite trimEnd_app_nl.
  - unfold lineOf. now rewrite split_noLF.
Qed.

Lemma wfTokens_Forall (toks : list string) : wfTokens toks -> Forall lineTok toks.
Proof.
  induction toks as [|t toks IH]; intros H; constructor.
  - apply H.
  - apply IH. eapply wfTokens_tail, H.
Qed.

Lemma oldToks_In (script : list Edit) (t : string) :
  In t (oldToks script) -> In t (news script) \/ In t (dels script).
Proof.
  induction script as [|e rest IH]; simpl; [tauto|].
  destruct e; simpl; intros H.
  - destruct H as [H|H]; [left; left; exact H|].
    destruct (IH H); [left; right|right]; assumption.
  - destruct (IH H); [left; right|right]; assumption.
  - destruct H as [H|H]; [right; left; exact H|].
    destruct (IH H); [left|right; right]; assumption.
Qed.

(** The tokens the script shows on the old side are those of the old text,
    up to white space around the kept lines. *)
Lemma oldToks_editScript (olds news0 : list string) :
  Forall2 (fun a b => trim a = trim b) (oldToks (editScript olds news0)) olds.
Proof.
  apply (editScript_ind (fun os _ script =>
    Forall2 (fun a b => trim a = trim b) (oldToks script) os)).
  - intros ns. induction ns; simpl; [constructor|assumption].
  - intros os. induction os; simpl; constructor; auto.
  - intros o n os ns IH1 IH2 IH3. rewrite editScript_cons.
    destruct (sameLine o n) eqn:Hs.
    + simpl. constructor; [|exact IH1].
      unfold sameLine in Hs. apply String.eqb_eq in Hs. now symmetry.
    + case_if; simpl; [constructor; auto|exact IH3].
Qed.

Lemma Forall2_map_trim (l1 l2 : list string) :
  Forall2 (fun a b => trim a = trim b) l1 l2 -> map trim l1 = map trim l2.
Proof. induction 1; simpl; congruence. Qed.

Lemma map_trim_lineOf (toks : list string) :
  Forall lineTok toks -> map trim (map lineOf toks) = map trim toks.
Proof.
  induction 1 as [|t toks Ht _ IH]; simpl; [reflexivity|].
  now rewrite IH, trim_lineOf.
Qed.

Lemma newSide_DiffViewer_rows (oldContent newContent : string) :
  newSide (DiffViewer_rows oldContent newContent)
  = popIfLastEmpty (split LF newContent).
Proof.
  unfold DiffViewer_rows. rewrite getDiffRows_newSide.
  apply diffLines_lines.
Qed.

Lemma oldSide_DiffViewer_rows (oldContent newContent : string) :
  map trim (oldSide (DiffViewer_rows oldContent newContent))
  = map trim (popIfLastEmpty (split LF oldContent)).
Proof.
  unfold DiffViewer_rows. rewrite getDiffRows_oldSide.
  destruct (diffLines_lines oldContent newContent) as [Ho _]. rewrite Ho.
  set (script := editScript (tokenize oldContent) (tokenize newContent)).
  rewrite <- tokenize_lines.
  rewrite !map_trim_lineOf.
  - apply Forall2_map_trim, oldToks_editScript.
  - apply wfTokens_Forall, tokenize_wf.
  - apply Forall_forall. intros t Ht.
    destruct (oldToks_In script t Ht) as [Hin|Hin].
    + unfold script in Hin. rewrite news_editScript in Hin.
      pose proof (wfTokens_Forall _ (tokenize_wf newContent)) as Hw.
      rewrite Forall_forall in Hw. apply Hw, Hin.
    + pose proof (wfTokens_Forall _
        (dels_editScript_wf (tokenize oldContent) (tokenize newContent)
                            (tokenize_wf oldContent))) as Hw.
      rewrite Forall_forall in Hw. apply Hw, Hin.
Qed.

(** X3.  The new side of the diff is the new text: the texts of the rows
    with a new index are, in order, the lines of [newContent] split at line
    feeds, without a final empty line. *)
Theorem DiffViewer_rows_new_side (oldContent newContent : string) :
  newSide (DiffViewer_rows oldContent newContent)
  = popIfLastEmpty (split LF newContent).
Proof. apply newSide_DiffViewer_rows. Qed.

(** X4.  The old side of the diff is the old text up to white space around
    the lines: after trimming, the texts of the rows with an old index are,
    in order, the trimmed lines of [oldContent]. *)
Theorem DiffViewer_rows_old_side (oldContent newContent : string) :
  map trim (oldSide (DiffViewer_rows oldContent newContent))
  = map trim (popIfLastEmpty (split LF oldContent)).
Proof. apply oldSide_DiffViewer_rows. Qed.

(** ** One-sided and unchanged diffs *)

Lemma buildValues_flags (P : bool -> bool -> Prop) (script : list Edit) :
  Forall (fun e => P (added (partOf e)) (removed (partOf e))) script ->
  Forall (fun p => P (added p) (removed p)) (buildValues script).
Proof.
  induction 1 as [|e rest He _ IH]; simpl; [constructor|].
  destruct (buildValues rest) as [|p parts].
  - constructor; [exact He|constructor].
  - inversion IH as [|? ? Hp Hparts]; subst.
    destruct (sameTag e p); constructor; auto.
Qed.

Lemma rows_of_added_parts (lineDiff : list DiffPart) :
  Forall (fun p => added p = true) lineDiff ->
  map kindText (getDiffRows lineDiff) = map (pair add) (newLinesOf lineDiff).
Proof.
  intros H. rewrite getDiffRows_kindText. unfold newLinesOf.
  induction H as [|p ps Hp _ IH]; simpl; [reflexivity|].
  rewrite map_app, IH. unfold partKind. now rewrite Hp.
Qed.

Lemma rows_of_removed_parts (lineDiff : list DiffPart) :
  Forall (fun p => added p = false /\ removed p = true) lineDiff ->
  map kindText (getDiffRows lineDiff) = map (pair del) (oldLinesOf lineDiff).
Proof.
  intros H. rewrite getDiffRows_kindText. unfold oldLinesOf.
  induction H as [|p ps [Ha Hr] _ IH]; simpl; [reflexivity|].
  rewrite map_app, IH. unfold partKind. now rewrite Ha, Hr.
Qed.

Lemma rows_of_unchanged_parts (lineDiff : list DiffPart) :
  Forall unchanged lineDiff ->
  map kindText (getDiffRows lineDiff) = map (pair equal) (newLinesOf lineDiff).
Proof.
  intros H. rewrite getDiffRows_kindText. unfold newLinesOf.
  induction H as [|p ps [Ha Hr] _ IH]; simpl; [reflexivity|].
  rewrite map_app, IH. unfold partKind. now rewrite Ha, Hr.
Qed.

Lemma oldToks_map_Delete (toks : list string) : oldToks (map Delete toks) = toks.
Proof. induction toks as [|t toks IH]; simpl; [reflexivity|]. now rewrite IH. Qed.

(** X5.  Against an empty old text every line of the new text is one added
    row, in order; against an empty new text every line of the old text is
    one removed row, in order. *)
Theorem DiffViewer_rows_one_sided (content : string) :
  map kindText (DiffViewer_rows EmptyString content)
  = map (pair add) (popIfLastEmpty (split LF content))
  /\ map kindText (DiffViewer_rows content EmptyString)
     = map (pair del) (popIfLastEmpty (split LF content)).
Proof.
  split.
  - unfold DiffViewer_rows. rewrite rows_of_added_parts.
    + f_equal. apply diffLines_lines.
    + unfold diffLines. cbn [tokenize]. rewrite editScript_nil_l.
      apply (buildValues_flags (fun a _ => a = true)).
      apply Forall_forall. intros e He. apply in_map_iff in He.
      destruct He as [t [<- _]]. reflexivity.
  - unfold DiffViewer_rows. rewrite rows_of_removed_parts.
    + f_equal. destruct (diffLines_lines content EmptyString) as [Ho _].
      rewrite Ho. cbn [tokenize]. rewrite editScript_nil_r, oldToks_map_Delete.
      apply tokenize_lines.
    + unfold diffLines. cbn [tokenize]. rewrite editScript_nil_r.
      apply (buildValues_flags (fun a r => a = false /\ r = true)).
      apply Forall_forall. intros e He. apply in_map_iff in He.
      destruct He as [t [<- _]]. split; reflexivity.
Qed.

Lemma editScript_sameLine (olds news0 : list string) :
  Forall2 (fun a b => sameLine a b = true) olds news0 ->
  editScript olds news0 = map Keep news0.
Proof.
  induction 1 as [|o n os ns Hs _ IH]; [reflexivity|].
  rewrite editScript_cons, Hs, IH. reflexivity.
Qed.

Lemma Forall2_map_both {A B : Type} (R : B -> B -> Prop) (f : A -> B) (l1 l2 : list A) :
  Forall2 R (map f l1) (map f l2) -> Forall2 (fun a b => R (f a) (f b)) l1 l2.
Proof.
  revert l2. induction l1 as [|a l1 IH]; intros [|b l2] H; inversion H; subst;
    constructor; auto.
Qed.

Lemma Forall2_impl_In {A : Type} (R S : A -> A -> Prop) (l1 l2 : list A) :
  (forall a b, In a l1 -> In b l2 -> R a b -> S a b) ->
  Forall2 R l1 l2 -> Forall2 S l1 l2.
Proof.
  intros Himp H. induction H as [|a b l1 l2 Hab _ IH]; constructor.
  - apply Himp; simpl; auto.
  - apply IH. intros x y Hx Hy. apply Himp; simpl; auto.
Qed.

(** X6.  When the two texts agree line by line up to white space around the
    lines (as a text with CRLF line ends and the same text with LF line ends
    do), every row is unchanged and shows the line of the new text. *)
Theorem DiffViewer_rows_same_lines (oldContent newContent : string) :
  sameLines oldContent newContent ->
  map kindText (DiffViewer_rows oldContent newContent)
  = map (pair equal) (popIfLastEmpty (split LF newContent)).
Proof.
  unfold sameLines. rewrite <- !tokenize_lines. intros H.
  apply Forall2_map_both in H.
  assert (Hs : Forall2 (fun a b => sameLine a b = true)
                       (tokenize oldContent) (tokenize newContent)).
  { pose proof (wfTokens_Forall _ (tokenize_wf oldContent)) as Ho.
    pose proof (wfTokens_Forall _ (tokenize_wf newContent)) as Hn.
    rewrite Forall_forall in Ho, Hn.
    eapply Forall2_impl_In; [|exact H]. intros a b Ha Hb Hab. cbn in Hab.
    unfold sameLine. apply String.eqb_eq.
    rewrite <- (trim_lineOf a), <- (trim_lineOf b); auto. }
  unfold DiffViewer_rows. rewrite rows_of_unchanged_parts.
  - f_equal. destruct (diffLines_lines oldContent newContent) as [_ Hn].
    rewrite Hn. symmetry. apply tokenize_lines.
  - unfold diffLines. rewrite (editScript_sameLine _ _ Hs).
    apply buildValues_Keep.
Qed.

Lemma DiffViewer_rows_same_lines_witness :
  sameLines ("A " ++ crlf ++ "B") ("A" ++ nl ++ " B" ++ nl)
  /\ map kindText (DiffViewer_rows ("A " ++ crlf ++ "B") ("A" ++ nl ++ " B" ++ nl))
     = map (pair equal) (popIfLastEmpty (split LF ("A" ++ nl ++ " B" ++ nl))).
Proof.
  assert (H : sameLines ("A " ++ crlf ++ "B") ("A" ++ nl ++ " B" ++ nl)).
  { unfold sameLines. cbn. repeat constructor. }
  split; [exact H|].
  apply (DiffViewer_rows_same_lines ("A " ++ crlf ++ "B") ("A" ++ nl ++ " B" ++ nl) H).
Defined.


(** ** Decimal digits *)

Lemma string_of_uint_length (d : Decimal.uint) :
  String.length (DecimalString.NilEmpty.string_of_uint d) = Decimal.nb_digits d.
Proof. induction d; simpl; congruence. Qed.

Lemma nb_digits_succ (d : Decimal.uint) :
  Decimal.nb_digits d <= Decimal.nb_digits (Decimal.Little.succ d).
Proof. induction d; simpl; lia. Qed.

Lemma numberToString_length (n : nat) :
  String.length (numberToString n)
  = Decimal.nb_digits (DecimalNat.Unsigned.to_lu n).
Proof.
  unfold numberToString.
  rewrite string_of_uint_length, DecimalNat.Unsigned.to_uint_alt.
  apply DecimalFacts.nb_digits_rev.
Qed.

(** A larger number has at least as many digits. *)
Lemma numberToString_length_mono (n m : nat) :
  n <= m -> String.length (numberToString n) <= String.length (numberToString m).
Proof.
  intros H. rewrite !numberToString_length.
  induction H as [|m _ IH]; [lia|].
  rewrite DecimalNat.Unsigned.to_lu_succ.
  pose proof (nb_digits_succ (DecimalNat.Unsigned.to_lu m)). lia.
Qed.

Lemma numberToString_nonempty (n : nat) : 1 <= String.length (numberToString n).
Proof.
  pose proof (numberToString_length_mono 0 n (Nat.le_0_l n)) as H.
  exact H.
Qed.

(** ** The lines of the two props and the rows *)

Lemma split_length (s : string) : List.length (split LF s) = S (countLF s).
Proof.
  induction s as [|c s IH]; simpl; [reflexivity|].
  destruct (Ascii.eqb c LF); simpl; [now rewrite IH|].
  destruct (split LF s); simpl in *; lia.
Qed.

Lemma popIfLastEmpty_length (lines : list string) :
  List.length (popIfLastEmpty lines) <= List.length lines.
Proof.
  unfold popIfLastEmpty. destruct (at_last lines) as [[|c x]|]; try lia.
  induction lines as [|l lines IH]; simpl; [lia|].
  destruct lines; simpl in *; lia.
Qed.

Lemma countLF_replaceCRLF (s : string) : countLF (replaceCRLF s) = countLF s.
Proof.
  induction s as [|c|c d s IHs IHd] using string_ind2; try reflexivity.
  cbn [replaceCRLF]. destruct (Ascii.eqb c CR && Ascii.eqb d LF) eqn:H.
  - apply andb_prop in H. destruct H as [Hc Hd].
    apply Ascii.eqb_eq in Hc, Hd. subst c d. cbn [countLF].
    rewrite IHs. reflexivity.
  - change (countLF (String c (replaceCRLF (String d s)))
            = countLF (String c (String d s))).
    cbn [countLF] in *. rewrite IHd. reflexivity.
Qed.

Lemma countLF_replaceCR (s : string) : countLF s <= countLF (replaceCR s).
Proof.
  induction s as [|c s IH]; simpl; [lia|].
  destruct (Ascii.eqb c CR) eqn:Hc.
  - apply Ascii.eqb_eq in Hc. subst c. simpl. lia.
  - lia.
Qed.

(** The rows with an old index are never more than [oldLines], whatever the
    line ends of the text. *)
Lemma tokenize_le_textLines (content : string) :
  List.length (tokenize content) <= List.length (textLines content).
Proof.
  rewrite tokenize_length. unfold textLines, normalizeText.
  pose proof (popIfLastEmpty_length (split LF content)) as H1.
  rewrite !split_length in *.
  pose proof (countLF_replaceCR (replaceCRLF content)) as H2.
  rewrite countLF_replaceCRLF in H2. lia.
Qed.

Lemma oldIdx_bound (lineDiff : list DiffPart) (r : DiffRow) (i : nat) :
  In r (getDiffRows lineDiff) -> oldIdx r = Some i ->
  1 <= i <= countOld (getDiffRows lineDiff).
Proof.
  intros Hr Hi.
  assert (Hin : In i (oldIdxs (getDiffRows lineDiff))).
  { unfold oldIdxs. apply in_flat_map. exists r. split; [exact Hr|].
    rewrite Hi. left. reflexivity. }
  rewrite getDiffRows_oldIdxs in Hin. apply in_seq in Hin. lia.
Qed.

Lemma newIdx_bound (lineDiff : list DiffPart) (r : DiffRow) (i : nat) :
  In r (getDiffRows lineDiff) -> newIdx r = Some i ->
  1 <= i <= countNew (getDiffRows lineDiff).
Proof.
  intros Hr Hi.
  assert (Hin : In i (newIdxs (getDiffRows lineDiff))).
  { unfold newIdxs. apply in_flat_map. exists r. split; [exact Hr|].
    rewrite Hi. left. reflexivity. }
  rewrite getDiffRows_newIdxs in Hin. apply in_seq in Hin. lia.
Qed.

(** ** The gutters *)

Lemma gutterText_length (idx : option nat) (bound : nat) :
  (forall i, idx = Some i -> i <= bound) ->
  String.length (gutterText idx) <= String.length (numberToString bound).
Proof.
  intros H. unfold gutterText.
  destruct idx as [[|i]|]; simpl; try lia.
  apply numberToString_length_mono, H. reflexivity.
Qed.

(** X7.  Each gutter is wide enough for every number shown in it: the width
    computed at line 24 from the lines of the normalized text is at least
    three, and at least the digits of any index of the rows plus two,
    whatever the line ends of the two texts. *)
Theorem DiffViewer_gutter_fits (oldContent newContent : string) :
  3 <= idxWidthCh (textLines oldContent)
  /\ 3 <= idxWidthCh (textLines newContent)
  /\ Forall (fun r =>
       String.length (gutterText (oldIdx r)) + 2 <= idxWidthCh (textLines oldContent)
       /\ String.length (gutterText (newIdx r)) + 2 <= idxWidthCh (textLines newContent))
     (DiffViewer_rows oldContent newContent).
Proof.
  unfold idxWidthCh.
  pose proof (numberToString_nonempty (List.length (textLines oldContent))).
  pose proof (numberToString_nonempty (List.length (textLines newContent))).
  split; [lia|]. split; [lia|].
  apply Forall_forall. intros r Hr. unfold DiffViewer_rows in Hr.
  destruct (DiffViewer_rows_counts oldContent newContent) as [Ho Hn].
  unfold DiffViewer_rows in Ho, Hn. rewrite <- tokenize_length in Ho, Hn.
  pose proof (tokenize_le_textLines oldContent) as Lo.
  pose proof (tokenize_le_textLines newContent) as Ln.
  split.
  - apply Nat.add_le_mono_r, gutterText_length. intros i Hi.
    pose proof (oldIdx_bound _ r i Hr Hi). lia.
  - apply Nat.add_le_mono_r, gutterText_length. intros i Hi.
    pose proof (newIdx_bound _ r i Hr Hi). lia.
Qed.

(** X8.  The conditions of lines 94-105 treat an index as missing when it is
    [null] or [0]; the indices of [getDiffRows] start at 1, so for its rows a
    gutter cell shows the number and carries the label with the number
    exactly when the row has the index, and is empty with the label of a
    missing line exactly when it has none. *)
Theorem renderRow_gutters_exact (lineDiff : list DiffPart) :
  Forall (fun r =>
    gutterText (oldIdx r)
    = match oldIdx r with Some i => numberToString i | None => EmptyString end
    /\ oldGutterLabel (oldIdx r)
       = match oldIdx r with
         | Some i => ("Original line " ++ numberToString i)%string
         | None => "No original line"
         end
    /\ gutterText (newIdx r)
       = match newIdx r with Some i => numberToString i | None => EmptyString end
    /\ newGutterLabel (newIdx r)
       = match newIdx r with
         | Some i => ("New line " ++ numberToString i)%string
         | None => "No new line"
         end)
  (getDiffRows lineDiff).
Proof.
  apply Forall_forall. intros r Hr.
  assert (Ho : idxTruthy (oldIdx r) = present (oldIdx r)).
  { destruct (oldIdx r) as [i|] eqn:Hi; [|reflexivity].
    pose proof (oldIdx_bound _ r i Hr Hi). destruct i; [lia|reflexivity]. }
  assert (Hn : idxTruthy (newIdx r) = present (newIdx r)).
  { destruct (newIdx r) as [i|] eqn:Hi; [|reflexivity].
    pose proof (newIdx_bound _ r i Hr Hi). destruct i; [lia|reflexivity]. }
  unfold gutterText, oldGutterLabel, newGutterLabel. rewrite Ho, Hn.
  destruct (oldIdx r), (newIdx r); simpl; repeat split.
Qed.

(** X9.  The label of the text cell tells the kind and the text of its row:
    two rows with the same label have the same kind and the same text. *)
Theorem textLabel_injective (k1 k2 : Kind) (line1 line2 : string) :
  textLabel k1 line1 = textLabel k2 line2 -> k1 = k2 /\ line1 = line2.
Proof.
  destruct k1, k2; simpl; intros H; try discriminate;
    injection H as H; (split; [reflexivity|exact H]).
Qed.

Lemma textLabel_injective_witness :
  textLabel del "Old" = textLabel del "Old" /\ del = del /\ "Old" = "Old".
Proof.
  split; [reflexivity|].
  apply (textLabel_injective del del "Old" "Old"). reflexivity.
Defined.

(** The visible text alone does not: an added line "x" and an unchanged
    line "+ x" read the same. *)
Example textContent_ambiguous : textContent add "x" = textContent equal "+ x".
Proof. reflexivity. Qed.


(** ** normalizeText *)

Lemma noCR_replaceCR (s : string) : noCR (replaceCR s) = true.
Proof.
  induction s as [|c s IH]; simpl; [reflexivity|].
  rewrite IH. destruct (Ascii.eqb c CR) eqn:Hc; [reflexivity|].
  now rewrite Hc.
Qed.

Lemma replaceCRLF_noCR (s : string) : noCR s = true -> replaceCRLF s = s.
Proof.
  induction s as [|c s IH]; intros H; [reflexivity|].
  cbn [noCR] in H. apply andb_prop in H. destruct H as [Hc Hs].
  apply negb_true_iff in Hc.
  rewrite (replaceCRLF_cons _ _ Hc), (IH Hs). reflexivity.
Qed.

Lemma normalizeText_noCR (s : string) : noCR s = true -> normalizeText s = s.
Proof.
  intros H. unfold normalizeText.
  rewrite (replaceCRLF_noCR _ H). apply replaceCR_noCR, H.
Qed.

Lemma split_pieces_noCR (s : string) :
  noCR s = true -> Forall (fun l => noCR l = true) (split LF s).
Proof.
  induction s as [|c s IH]; simpl; intros H.
  - constructor; [reflexivity|constructor].
  - apply andb_prop in H. destruct H as [Hc Hs]. specialize (IH Hs).
    destruct (Ascii.eqb c LF).
    + constructor; [reflexivity|exact IH].
    + destruct (split LF s) as [|piece pieces].
      * constructor; [simpl; now rewrite Hc|constructor].
      * inversion IH as [|? ? Hp Hps]; subst.
        constructor; [simpl; now rewrite Hc, Hp|exact Hps].
Qed.

(** X10.  The text [normalizeText] returns holds no carriage return, and
    normalizing twice is normalizing once. *)
Theorem normalizeText_removes_CR (content : string) :
  noCR (normalizeText content) = true
  /\ normalizeText (normalizeText content) = normalizeText content.
Proof.
  assert (H : noCR (normalizeText content) = true) by apply noCR_replaceCR.
  split; [exact H|apply normalizeText_noCR, H].
Qed.

(** X11.  The arrays [oldLines] and [newLines] are never empty, and none of
    their lines holds a line feed or a carriage return. *)
Theorem textLines_clean (content : string) :
  textLines content <> []
  /\ Forall (fun l => noLF l = true /\ noCR l = true) (textLines content).
Proof.
  split; [apply split_nonempty|].
  unfold textLines.
  pose proof (split_pieces_noLF (normalizeText content)) as H1.
  pose proof (split_pieces_noCR (normalizeText content)
                                (noCR_replaceCR (replaceCRLF content))) as H2.
  rewrite Forall_forall in *. intros l Hl. split; auto.
Qed.

(** ** The request handler and the diff tab *)

(** X12.  When a request is answered without markdown, the diff tab then
    compares the text that was sent with itself: every row is unchanged with
    equal indices; the editor holds the text that was sent, whatever was
    typed since, and the controls are enabled again. *)
Theorem settleRequest_without_markdown
    (markdown instructions : string) (result : LLMResult) (current : Ui) :
  res_markdown result = None ->
  let st' := settleRequest markdown instructions (fulfilled result) current in
  Forall rowSame (OutputPanel_rows (Some (u_markdown st')) (Some (u_markdownInput st')))
  /\ u_markdown st' = markdown
  /\ u_markdownInput st' = markdown
  /\ u_isProcessing st' = false.
Proof.
  intros Hr. unfold settleRequest, onSendToLLM. rewrite Hr. cbn.
  repeat split.
  unfold OutputPanel_rows, DiffViewer_rows, diffLines. cbn [orEmpty].
  rewrite editScript_same. apply getDiffRows_unchanged, buildValues_Keep.
Qed.

Lemma settleRequest_without_markdown_witness :
  res_markdown (mkLLMResult None (Some "Nothing to change")) = None
  /\ Forall rowSame
       (OutputPanel_rows (Some (u_markdown settledUi))
                         (Some (u_markdownInput settledUi)))
  /\ u_markdown settledUi = "# Title"
  /\ u_markdownInput settledUi = "# Title"
  /\ u_isProcessing settledUi = false.
Proof.
  split; [reflexivity|].
  apply (settleRequest_without_markdown "# Title" "shorten"
           (mkLLMResult None (Some "Nothing to change")) sampleUi).
  reflexivity.
Defined.


(** ** Themes *)

Lemma fold_classList_remove (names classes : list string) :
  fold_left (fun cl name => classList_remove name cl) names classes
  = filter (fun c => negb (existsb (String.eqb c) names)) classes.
Proof.
  revert classes. induction names as [|n names IH]; intros classes; simpl.
  - induction classes as [|c cl IHc]; simpl; [reflexivity|]. now rewrite <- IHc.
  - rewrite IH. unfold classList_remove.
    induction classes as [|c cl IHc]; simpl; [reflexivity|].
    destruct (String.eqb c n); simpl; [exact IHc|].
    destruct (existsb (String.eqb c) names); simpl; [exact IHc|].
    now rewrite IHc.
Qed.

Lemma existsb_filter_out (t : string) (classes : list string) :
  isTheme t = true ->
  existsb (String.eqb t) (filter (fun c => negb (isTheme c)) classes) = false.
Proof.
  intros Ht. induction classes as [|c cl IH]; simpl; [reflexivity|].
  destruct (isTheme c) eqn:Hc; simpl; [exact IH|].
  rewrite IH, orb_false_r. apply String.eqb_neq. intros ->. congruence.
Qed.

Lemma In_themes_isTheme (t : string) : In t themes -> isTheme t = true.
Proof.
  intros H. unfold isTheme. apply existsb_exists. exists t.
  split; [exact H|apply String.eqb_refl].
Qed.

(** X14.  The theme set when the hook mounts is one of the six themes,
    whatever the local storage holds (nothing, a known name or any other
    text) and whatever the system prefers. *)
Theorem storedOrDefault_known (storedTheme : option string) (darkMode : bool) :
  In (storedOrDefault storedTheme darkMode) themes.
Proof.
  unfold storedOrDefault.
  destruct (includes themes storedTheme) eqn:H.
  - destruct storedTheme as [s|]; [|discriminate]. cbn [includes orEmpty] in *.
    apply existsb_exists in H. destruct H as [x [Hx Heq]].
    apply String.eqb_eq in Heq. now subst.
  - destruct darkMode; cbn; tauto.
Qed.

Lemma applyTheme_spec (t : string) (pg : Page) :
  In t themes ->
  classList (applyTheme (Some t) pg)
  = filter (fun c => negb (isTheme c)) (classList pg) ++ [t]
  /\ colorTheme (applyTheme (Some t) pg) = Some t.
Proof.
  intros Ht. pose proof (In_themes_isTheme t Ht) as Hth.
  destruct t as [|c t]; [cbn in Ht; intuition discriminate|].
  cbn [applyTheme classList colorTheme]. split; [|reflexivity].
  rewrite fold_classList_remove. unfold classList_add.
  change (fun c0 => negb (existsb (String.eqb c0) themes))
    with (fun c0 => negb (isTheme c0)).
  now rewrite existsb_filter_out.
Qed.

(** X15.  Applying one of the six themes leaves the body with the classes
    it had that are no theme names, in their order, followed by the class of
    this theme: no other theme class stays, and the theme is stored. *)
Theorem applyTheme_classes (t : string) (pg : Page) :
  In t themes ->
  classList (applyTheme (Some t) pg)
  = filter (fun c => negb (isTheme c)) (classList pg) ++ [t]
  /\ colorTheme (applyTheme (Some t) pg) = Some t.
Proof. apply applyTheme_spec. Qed.

Lemma applyTheme_classes_witness :
  In "dark" themes
  /\ classList (applyTheme (Some "dark") (mkPage ["light"; "app"; "forest"] None))
     = filter (fun c => negb (isTheme c)) ["light"; "app"; "forest"] ++ ["dark"]
  /\ colorTheme (applyTheme (Some "dark") (mkPage ["light"; "app"; "forest"] None))
     = Some "dark".
Proof.
  assert (H : In "dark" themes) by (cbn; tauto).
  split; [exact H|].
  apply (applyTheme_classes "dark" (mkPage ["light"; "app"; "forest"] None) H).
Defined.

Lemma themeOptions_known (o : ThemeOption) :
  In o themeOptions -> In (opt_id o) themes.
Proof.
  cbn. intros H.
  repeat (destruct H as [<-|H]; [cbn; tauto|]). contradiction.
Qed.

(** X16.  A theme chosen in the menu comes back at the next visit: once the
    effect has applied the id of a menu option, the hook mounting on that
    local storage sets this theme again, whatever the system prefers. *)
Theorem theme_choice_persists (o : ThemeOption) (pg : Page) (darkMode : bool) :
  In o themeOptions ->
  storedOrDefault (colorTheme (applyTheme (Some (opt_id o)) pg)) darkMode
  = opt_id o.
Proof.
  intros Ho. pose proof (themeOptions_known o Ho) as Ht.
  destruct (applyTheme_spec (opt_id o) pg Ht) as [_ Hc]. rewrite Hc.
  unfold storedOrDefault. cbn [includes orEmpty].
  fold (isTheme (opt_id o)). now rewrite (In_themes_isTheme _ Ht).
Qed.

Lemma theme_choice_persists_witness :
  In (mkThemeOption "glacier" "Glacier" "Cold & crisp") themeOptions
  /\ storedOrDefault
       (colorTheme (applyTheme (Some "glacier") (mkPage ["light"] (Some "light"))))
       true
     = "glacier".
Proof.
  assert (H : In (mkThemeOption "glacier" "Glacier" "Cold & crisp") themeOptions)
    by (cbn; tauto).
  split; [exact H|].
  apply (theme_choice_persists (mkThemeOption "glacier" "Glacier" "Cold & crisp")
           (mkPage ["light"] (Some "light")) true H).
Defined.


(** ** The children of the grid *)

Lemma renderDiffRows_skipn (ow nw : string) (rows : list DiffRow) (i : nat) :
  skipn (3 * i) (flat_map (renderRow ow nw) rows)
  = flat_map (renderRow ow nw) (skipn i rows).
Proof.
  revert rows. induction i as [|i IH]; intros rows; [reflexivity|].
  destruct rows as [|r rows]; [destruct (3 * S i); reflexivity|].
  replace (3 * S i) with (3 + 3 * i) by lia. cbn [flat_map skipn].
  rewrite <- IH. reflexivity.
Qed.

Lemma renderRows_length (ow nw : string) (rows : list DiffRow) :
  List.length (flat_map (renderRow ow nw) rows) = 3 * List.length rows.
Proof. induction rows as [|r rows IH]; cbn in *; lia. Qed.

(** X17.  The grid holds its description and then three cells for every
    row, in the order of the rows: the cells of row number [i] (from 0) are
    the children 3i+1, 3i+2 and 3i+3. *)
Theorem renderDiffRows_layout (ow nw : string) (rows : list DiffRow)
    (i : nat) (r : DiffRow) :
  nth_error rows i = Some r ->
  List.length (renderDiffRows ow nw rows) = 1 + 3 * List.length rows
  /\ firstn 3 (skipn (1 + 3 * i) (renderDiffRows ow nw rows)) = renderRow ow nw r.
Proof.
  intros Hr. unfold renderDiffRows. split.
  - cbn [List.length]. rewrite renderRows_length. reflexivity.
  - cbn [skipn Nat.add]. rewrite renderDiffRows_skipn.
    apply nth_error_split in Hr. destruct Hr as [l1 [l2 [-> Hlen]]].
    rewrite <- Hlen, skipn_app, skipn_all, Nat.sub_diag. reflexivity.
Qed.

Lemma renderDiffRows_layout_witness :
  nth_error (DiffViewer_rows ("Old" ++ nl ++ "Content") ("New" ++ nl ++ "Content")) 1
  = Some (mkRow None (Some 1) add "New")
  /\ List.length (renderDiffRows "3ch" "3ch"
       (DiffViewer_rows ("Old" ++ nl ++ "Content") ("New" ++ nl ++ "Content")))
     = 1 + 3 * List.length
         (DiffViewer_rows ("Old" ++ nl ++ "Content") ("New" ++ nl ++ "Content"))
  /\ firstn 3 (skipn (1 + 3 * 1) (renderDiffRows "3ch" "3ch"
       (DiffViewer_rows ("Old" ++ nl ++ "Content") ("New" ++ nl ++ "Content"))))
     = renderRow "3ch" "3ch" (mkRow None (Some 1) add "New").
Proof.
  split; [reflexivity|].
  apply (renderDiffRows_layout "3ch" "3ch"
           (DiffViewer_rows ("Old" ++ nl ++ "Content") ("New" ++ nl ++ "Content"))
           1 (mkRow None (Some 1) add "New")).
  reflexivity.
Defined.

(** For two empty texts the grid holds its description only. *)
Example DiffViewer_empty : DiffViewer EmptyString EmptyString = [diffDescription].
Proof. reflexivity. Qed.

(** ** The buttons of the user panel *)

(** X18.  Each button of the user panel can be pressed exactly when it
    shows its call to action: the upgrade button when it reads "Upgrade to
    Pro", the portal button when it reads "Manage billing"; with the portal
    access the provider computes, a subscriber reaches the portal even when
    payments are disabled, and without payments and subscription neither
    button can be pressed. *)
Theorem userPanel_buttons (paymentEnabled subscribed checkoutBusy portalBusy : bool) :
  negb (upgradeDisabled paymentEnabled subscribed checkoutBusy)
  = String.eqb (upgradeText paymentEnabled subscribed checkoutBusy) "Upgrade to Pro"
  /\ negb (portalDisabled (portalAccessOf paymentEnabled subscribed) portalBusy)
     = String.eqb (portalText (portalAccessOf paymentEnabled subscribed) portalBusy)
                  "Manage billing"
  /\ portalDisabled (portalAccessOf paymentEnabled true) false = false
  /\ upgradeDisabled false false checkoutBusy
     && portalDisabled (portalAccessOf false false) portalBusy = true.
Proof.
  destruct paymentEnabled, subscribed, checkoutBusy, portalBusy; repeat split.
Qed.

(** ** The errors of a sign-in *)

(** X19.  An error of the sign-in leads to at most one action, and to none
    only for the code of an existing account when the error names no e-mail
    or brings no pending GitHub credential; every other error, known or
    not, shows exactly one error toast. *)
Theorem handleSignInError_silent_case (err : AuthError) :
  List.length (handleSignInError err) <= 1
  /\ isNil (handleSignInError err)
     = optionIs (err_code err) EXISTING_ACCOUNT
       && negb (truthy (err_email err)
                && optionIs (err_pendingProvider err) "github.com")
  /\ (if optionIs (err_code err) EXISTING_ACCOUNT then true
      else match handleSignInError err with
           | [errorToast _] => true
           | _ => false
           end) = true.
Proof.
  unfold handleSignInError, handleExistingAccountError.
  destruct (optionIs (err_code err) EXISTING_ACCOUNT).
  - destruct (truthy (err_email err) && optionIs (err_pendingProvider err) "github.com");
      cbn; repeat split; lia.
  - destruct (optionIs (err_code err) EMAIL_IN_USE);
      [cbn; repeat split; lia|].
    destruct (optionIs (err_code err) POPUP_CLOSED);
      [cbn; repeat split; lia|].
    destruct (optionIs (err_code err) POPUP_BLOCKED);
      cbn; repeat split; lia.
Qed.


(** ** The numbers beside the lines *)

Lemma newNumbered_fst (rows : list DiffRow) : map fst (newNumbered rows) = newIdxs rows.
Proof.
  unfold newNumbered, newIdxs. induction rows as [|r rows IH]; simpl; [reflexivity|].
  rewrite map_app, IH. destruct (newIdx r); reflexivity.
Qed.

Lemma newNumbered_snd (rows : list DiffRow) : map snd (newNumbered rows) = newSide rows.
Proof.
  unfold newNumbered, newSide. induction rows as [|r rows IH]; simpl; [reflexivity|].
  rewrite map_app, IH. destruct (newIdx r); reflexivity.
Qed.

Lemma oldNumbered_fst (rows : list DiffRow) : map fst (oldNumbered rows) = oldIdxs rows.
Proof.
  unfold oldNumbered, oldIdxs. induction rows as [|r rows IH]; simpl; [reflexivity|].
  rewrite map_app, IH. destruct (oldIdx r); reflexivity.
Qed.

Lemma oldNumbered_snd (rows : list DiffRow) : map snd (oldNumbered rows) = oldSide rows.
Proof.
  unfold oldNumbered, oldSide. induction rows as [|r rows IH]; simpl; [reflexivity|].
  rewrite map_app, IH. destruct (oldIdx r); reflexivity.
Qed.

Lemma combine_fst_snd {A B : Type} (l : list (A * B)) :
  combine (map fst l) (map snd l) = l.
Proof. induction l as [|[a b] l IH]; simpl; [reflexivity|]. now rewrite IH. Qed.

(** X20.  The number beside a line is its line number: the rows with a new
    index carry, in order, the lines of the new text numbered 1, 2, ...;
    the rows with an old index carry the numbers 1, 2, ... with texts that
    are the lines of the old text up to white space around them. *)
Theorem DiffViewer_rows_line_numbers (oldContent newContent : string) :
  newNumbered (DiffViewer_rows oldContent newContent)
  = combine (seq 1 (List.length (popIfLastEmpty (split LF newContent))))
            (popIfLastEmpty (split LF newContent))
  /\ map (fun it => (fst it, trim (snd it)))
         (oldNumbered (DiffViewer_rows oldContent newContent))
     = combine (seq 1 (List.length (popIfLastEmpty (split LF oldContent))))
               (map trim (popIfLastEmpty (split LF oldContent))).
Proof.
  destruct (DiffViewer_rows_counts oldContent newContent) as [Co Cn].
  split.
  - rewrite <- (combine_fst_snd (newNumbered _)).
    rewrite newNumbered_fst, newNumbered_snd, newSide_DiffViewer_rows.
    unfold DiffViewer_rows. rewrite getDiffRows_newIdxs.
    fold (DiffViewer_rows oldContent newContent). now rewrite Cn.
  - rewrite <- (oldSide_DiffViewer_rows oldContent newContent), <- Co.
    unfold DiffViewer_rows. rewrite <- getDiffRows_oldIdxs.
    rewrite <- oldNumbered_fst, <- oldNumbered_snd.
    generalize (oldNumbered (getDiffRows (diffLines oldContent newContent))).
    intros l. induction l as [|[i t] l IH]; simpl; [reflexivity|].
    now rewrite IH.
Qed.
